(** * Scenex: a browser-side video frame extractor

    A shallow embedding of [src/App.tsx] and of its two web workers
    ([workers/frame.worker.ts], [workers/compression.worker.ts]).

    - JavaScript strings are [string]; the two regular expressions of the
      source are embedded as the scans they perform.
    - The [frames] record and the file table of the archive object are
      finite maps from file names to byte arrays.
    - The asynchronous frame loop is a transition system over the events the
      browser delivers (a [seeked] event of the video element, a message of
      an encode worker); everything between two [await]s is one step.
    - The browser and the libraries (video decoder, canvas serializer, zip
      archiver) are parameters of the model. *)

From Stdlib Require Import ZArith QArith Qround Ascii String List Bool Lia.
From Stdlib Require Import DecimalString DecimalNat.
From stdpp Require Import base option list strings gmap fin_maps.

Local Open Scope string_scope.

(** ** Settings (interface [VideoSettings]) *)

Inductive Format := jpg | png | webp.

Inductive ExtractionMode := all | interval | count.

Record VideoSettings := {
  format : Format;
  quality : Q;
  maxWidth : option Z;
  extractionMode : ExtractionMode;
  framesPerSecond : Z;
  totalFrames : Z;
  filenamePattern : string;
  useOriginalName : bool
}.

Definition format_name (f : Format) : string :=
  match f with jpg => "jpg" | png => "png" | webp => "webp" end.

#[global] Instance Format_eq_dec : EqDecision Format.
Proof. solve_decision. Defined.

(** The initial value of the [settings] state variable. *)
Definition default_settings : VideoSettings :=
  {| format := webp; quality := 1; maxWidth := None; extractionMode := all;
     filenamePattern := "frame_%i"; useOriginalName := false;
     framesPerSecond := 60; totalFrames := 100 |}.

(** ** JavaScript string primitives used by the source *)

Module JS.

(** [String(n)] for a non-negative integer. *)
Definition String_of_nat (n : nat) : string :=
  NilZero.string_of_uint (Nat.to_uint n).

Definition String_of_Z (z : Z) : string :=
  NilZero.string_of_int (Z.to_int z).

(** [fill.repeat(..)] cut to [n] characters, as [padStart] builds its
    filler: the filler string is cycled through. *)
Fixpoint filler (n : nat) (fill cur : string) : string :=
  match n with
  | O => ""
  | S n' =>
      match cur with
      | String c cur' => String c (filler n' fill cur')
      | EmptyString =>
          match fill with
          | String c fill' => String c (filler n' fill fill')
          | EmptyString => ""
          end
      end
  end.

(** [s.padStart(targetLength, fill)]. *)
Definition padStart (s : string) (targetLength : nat) (fill : string)
    : string :=
  if (targetLength <=? String.length s)%nat then s
  else filler (targetLength - String.length s) fill fill +:+ s.

(** [s.startsWith(p)]. *)
Fixpoint startsWith (s p : string) : bool :=
  match p, s with
  | EmptyString, _ => true
  | String a p', String b s' =>
      if Ascii.eqb a b then startsWith s' p' else false
  | String _ _, EmptyString => false
  end.

(** The character class [[^/.]]. *)
Definition not_slash_dot (c : ascii) : bool :=
  negb (Ascii.eqb c "/") && negb (Ascii.eqb c ".").

(** [[^/.]*$] tried at the head of [s]. *)
Fixpoint class_to_end (s : string) : bool :=
  match s with
  | EmptyString => true
  | String c s' => not_slash_dot c && class_to_end s'
  end.

(** [/\.[^/.]+$/] tried at the head of [s]. *)
Definition ext_matches_here (s : string) : bool :=
  match s with
  | String d (String c s') =>
      Ascii.eqb d "." && not_slash_dot c && class_to_end s'
  | _ => false
  end.

(** [s.replace(/\.[^/.]+$/, "")]: the leftmost position where the
    expression matches is looked for from the left; the match runs to the
    end of the string and is replaced by the empty string. *)
Fixpoint strip_extension (s : string) : string :=
  if ext_matches_here s then ""
  else match s with
       | EmptyString => ""
       | String c s' => String c (strip_extension s')
       end.

(** [s.replace(/%i/g, r)] for a replacement [r] with no [$] pattern:
    matches are taken from the left and do not overlap. *)
Fixpoint replace_pct_i (s r : string) : string :=
  match s with
  | EmptyString => ""
  | String c s' =>
      match s' with
      | String d s'' =>
          if Ascii.eqb c "%" && Ascii.eqb d "i"
          then r +:+ replace_pct_i s'' r
          else String c (replace_pct_i s' r)
      | EmptyString => String c ""
      end
  end.

End JS.

(** ** [generateFilename] *)

Definition paddingLength (totalFrames : Z) : nat :=
  if (10000 <=? totalFrames)%Z then 5
  else if (1000 <=? totalFrames)%Z then 4
  else if (100 <=? totalFrames)%Z then 3 else 2.

Definition filename_pattern (settings : VideoSettings)
    (originalName : string) : string :=
  if useOriginalName settings
  then JS.strip_extension originalName +:+ "_%i"
  else filenamePattern settings.

Definition generateFilename (settings : VideoSettings)
    (index : nat) (totalFrames : Z) (originalName : string) : string :=
  JS.replace_pct_i (filename_pattern settings originalName)
    (JS.padStart (JS.String_of_nat index) (paddingLength totalFrames) "0")
  +:+ "." +:+ format_name (format settings).

(** ** Byte arrays, blobs and settled promises *)

Abbreviation Bytes := (list Byte.byte).

Fixpoint bytes_of_string (s : string) : Bytes :=
  match s with
  | EmptyString => []
  | String c s' => byte_of_ascii c :: bytes_of_string s'
  end.

(** The state a promise settles in; a thrown value is kept as its message. *)
Inductive Settled (A : Type) :=
| Resolved (value : A)
| Rejected (error : string).
Arguments Resolved {A} value.
Arguments Rejected {A} error.

(** ** [createDownload] *)

Inductive Download :=
| StreamSaverDownload (filename : string) (content : Bytes)
| AnchorDownload (filename : string) (content : Bytes).

Definition download_filename (d : Download) : string :=
  match d with
  | StreamSaverDownload f _ | AnchorDownload f _ => f
  end.

Definition is_streaming (d : Download) : bool :=
  match d with
  | StreamSaverDownload _ _ => true
  | AnchorDownload _ _ => false
  end.

(** [new Blob([compressedData])]; an [undefined] part is stringified. *)
Definition blob_content (compressedData : option Bytes) : Bytes :=
  match compressedData with
  | Some data => data
  | None => bytes_of_string "undefined"
  end.

(** [now] is the value [Date.now()] returns in the branch taken; writing
    the stream and clicking the link are taken to succeed. *)
Definition createDownload (compressedData : option Bytes)
    (originalFilename : string) (now : Z) : Download :=
  let blob := blob_content compressedData in
  if (100 * 1024 * 1024 <? Z.of_nat (length blob))%Z then
    StreamSaverDownload
      ("frames_" +:+ JS.strip_extension originalFilename +:+ "_"
         +:+ JS.String_of_Z now +:+ ".zip") blob
  else
    AnchorDownload
      ("frames_" +:+ JS.strip_extension originalFilename +:+ "_"
         +:+ JS.String_of_Z now +:+ ".zip") blob.

(** ** Component state and [handleFileSelect] *)

Record File := {
  file_name : string;
  file_type : string;
  file_content : Bytes
}.

Record AppState := {
  isDragging : bool;
  videoFile : option File;
  isProcessing : bool;
  progress : Z;
  showSettings : bool;
  isPlaying : bool;
  videoUrl : string;
  alerts : list string
}.

Definition initial_app : AppState :=
  {| isDragging := false; videoFile := None; isProcessing := false;
     progress := 0; showSettings := false; isPlaying := false;
     videoUrl := ""; alerts := [] |}.

Definition alert (msg : string) (st : AppState) : AppState :=
  {| isDragging := isDragging st; videoFile := videoFile st;
     isProcessing := isProcessing st; progress := progress st;
     showSettings := showSettings st; isPlaying := isPlaying st;
     videoUrl := videoUrl st; alerts := alerts st ++ [msg] |}.

(** [file] is [None] when the caller passes [undefined] (a drop that carries
    no file). [createObjectURL] is the browser's [URL.createObjectURL]. *)
Definition handleFileSelect (createObjectURL : File -> string)
    (file : option File) (st : AppState) : AppState :=
  match file with
  | Some f =>
      if JS.startsWith (file_type f) "video/" then
        {| isDragging := isDragging st; videoFile := Some f;
           isProcessing := isProcessing st; progress := 0;
           showSettings := showSettings st; isPlaying := false;
           videoUrl := createObjectURL f; alerts := alerts st |}
      else alert "Please select a valid video file" st
  | None => alert "Please select a valid video file" st
  end.

Definition handleDrop (createObjectURL : File -> string)
    (files : list File) (st : AppState) : AppState :=
  handleFileSelect createObjectURL (head files)
    {| isDragging := false; videoFile := videoFile st;
       isProcessing := isProcessing st; progress := progress st;
       showSettings := showSettings st; isPlaying := isPlaying st;
       videoUrl := videoUrl st; alerts := alerts st |}.

(** ** The platform

    What the program gets from the browser and from its libraries. Numbers
    used as media positions are kept abstract: the source computes them in
    floating point. *)

Record Platform := {
  Time : Type;
  t_zero : Time;
  t_add : Time -> Time -> Time;
  t_mul : Time -> Time -> Time;
  t_div : Time -> Time -> Time;
  t_lt : Time -> Time -> bool;
  t_of_Z : Z -> Time;
  t_ceil : Time -> Z;
  (** [ImageData] *)
  Image : Type;
  (** [document.createElement('canvas').getContext('2d')] is not null *)
  canvas_context : bool;
  (** [new OffscreenCanvas(w, h).getContext('2d')] is not null *)
  offscreen_context : Image -> bool;
  (** the image types the canvas serializer knows *)
  supported_type : string -> bool;
  (** the serializer for a type it knows; [inl] is the message of the error
      it throws *)
  encode : string -> Image -> option Q -> string + Bytes;
  (** [zip.generateAsync] on a file table, with DEFLATE at the given level *)
  deflate : gmap string Bytes -> Z -> string + Bytes;
  (** [Date.now()] *)
  date_now : Z
}.

Record Video (P : Platform) := {
  duration : Time P;
  videoWidth : Z;
  videoHeight : Z;
  src : string;
  (** the pixels [drawImage(video, 0, 0, w, h)] puts on a canvas while the
      element shows the given position, read back by [getImageData] *)
  drawn : Time P -> Z -> Z -> Image P
}.
Arguments duration {P} v.
Arguments videoWidth {P} v.
Arguments videoHeight {P} v.
Arguments src {P} v.
Arguments drawn {P} v.

(** ** The encode worker ([frame.worker.ts]) *)

Record Blob := { blob_type : string; blob_bytes : Bytes }.

Inductive WorkerResponse :=
| WorkerSuccess (frameNumber : nat) (data : Bytes)
| WorkerError (error : string).

Section FrameWorker.
Variable P : Platform.

(** [canvas.convertToBlob({type, quality})]: a type the serializer does
    not know is written as PNG. *)
Definition convertToBlob (imageData : Image P) (type : string)
    (quality : option Q) : Settled Blob :=
  if supported_type P type then
    match encode P type imageData quality with
    | inr bytes => Resolved {| blob_type := type; blob_bytes := bytes |}
    | inl msg => Rejected msg
    end
  else
    match encode P "image/png" imageData None with
    | inr bytes => Resolved {| blob_type := "image/png"; blob_bytes := bytes |}
    | inl msg => Rejected msg
    end.

Definition mimeType (fmt : Format) : string := "image/" +:+ format_name fmt.

Definition worker_quality (fmt : Format) (q : Q) : option Q :=
  if decide (fmt = png) then None else Some q.

(** What the worker asks the serializer for. *)
Definition frame_worker_blob (imageData : Image P) (fmt : Format) (q : Q)
    : Settled Blob :=
  convertToBlob imageData (mimeType fmt) (worker_quality fmt q).

Definition frame_worker_onmessage (imageData : Image P) (fmt : Format)
    (q : Q) (frameNumber : nat) : WorkerResponse :=
  if offscreen_context P imageData then
    match frame_worker_blob imageData fmt q with
    | Resolved blob => WorkerSuccess frameNumber (blob_bytes blob)
    | Rejected msg => WorkerError msg
    end
  else WorkerError "Failed to get context".

(** [processFrameInWorker]: the promise settles on the worker's answer. *)
Definition processFrameInWorker (imageData : Image P)
    (settings : VideoSettings) (frameNumber : nat) : Settled Bytes :=
  match frame_worker_onmessage imageData (format settings)
          (quality settings) frameNumber with
  | WorkerError e => Rejected e
  | WorkerSuccess _ data => Resolved data
  end.

End FrameWorker.

(** ** The compression worker ([compression.worker.ts]) *)

Inductive CompressionResponse :=
| CompressionData (data : Bytes)
| CompressionError (error : string).

Module JSZip.
(** The file table of a [JSZip] object. *)
Definition empty : gmap string Bytes := ∅.

(** [zip.file(name, data)] *)
Definition file (zip : gmap string Bytes) (name : string) (data : Bytes)
    : gmap string Bytes :=
  <[name := data]> zip.
End JSZip.

Section CompressionWorker.
Variable P : Platform.

(** [level || 6] *)
Definition level_or_6 (level : option Z) : Z :=
  match level with
  | Some l => if (l =? 0)%Z then 6%Z else l
  | None => 6%Z
  end.

(** [Object.entries(frames).forEach(([filename, data]) => zip.file(..))] *)
Definition add_frames (frames : gmap string Bytes) : gmap string Bytes :=
  foldl (fun zip '(filename, data) => JSZip.file zip filename data)
    JSZip.empty (map_to_list frames).

Definition compression_onmessage (frames : gmap string Bytes)
    (level : option Z) : CompressionResponse :=
  match deflate P (add_frames frames) (level_or_6 level) with
  | inr zipData => CompressionData zipData
  | inl msg => CompressionError msg
  end.

(** [compressFrames]: the message carries no [level]; an error whose
    message is empty is not seen by [if (e.data.error)], and the promise
    then resolves with the missing [data] field. *)
Definition compressFrames (frames : gmap string Bytes)
    : Settled (option Bytes) :=
  match compression_onmessage frames None with
  | CompressionError e =>
      if decide (e = "") then Resolved None else Rejected e
  | CompressionData data => Resolved (Some data)
  end.

End CompressionWorker.

(** ** The frame loop ([processFramesWithWorkers], [extractFrames])

    JavaScript runs one turn of the event loop at a time: an async function
    runs from one [await] to the next without interruption. Of the browser
    the model takes that assigning [video.currentTime] starts a seek and
    replaces the seek under way, that [seeked] is fired once the element
    shows its current position, that the event calls every listener then
    registered, in the order they were added, and that a terminated worker
    posts nothing. The video is paused while frames are extracted. *)

(** [Math.round] on an exact quotient. *)
Definition Math_round (x : Q) : Z := Qfloor (x + (1 # 2)).

(** Where the async function [processNextBatch(worker)] stands. *)
Inductive Loop (P : Platform) :=
| NotStarted
| AwaitSeeked (frameTime : Time P)
| AwaitWorker (frameTime : Time P) (imageData : Image P) (frameNumber : nat)
| Returned
| Threw (error : string).
Arguments NotStarted {P}.
Arguments AwaitSeeked {P} frameTime.
Arguments AwaitWorker {P} frameTime imageData frameNumber.
Arguments Returned {P}.
Arguments Threw {P} error.

(** What a loop does to the objects it shares, in the order it does it. *)
Inductive Effect (P : Platform) :=
| Shift (w : nat) (frameTime : Time P)
| SetCurrentTime (w : nat) (t : Time P)
| ListenSeeked (w : nat)
| SeekedEvent
| ReadVideo (w : nat) (property : string)
| DrawImage (w : nat) (shown : Time P)
| PostFrame (w : nat) (frameNumber : nat)
| StoreFrame (w : nat) (frameTime : Time P) (filename : string)
    (imageData : Image P)
| Alert (msg : string)
| TerminateWorkers.
Arguments Shift {P} w frameTime.
Arguments SetCurrentTime {P} w t.
Arguments ListenSeeked {P} w.
Arguments SeekedEvent {P}.
Arguments ReadVideo {P} w property.
Arguments DrawImage {P} w shown.
Arguments PostFrame {P} w frameNumber.
Arguments StoreFrame {P} w frameTime filename imageData.
Arguments Alert {P} msg.
Arguments TerminateWorkers {P}.

Record State (P : Platform) := {
  frameQueue : list (Time P);
  currentTime : Time P;
  (** a seek is under way: a [seeked] event is due *)
  seeking : bool;
  (** the [once] listeners of [seeked], in the order they were added *)
  listeners : list nat;
  loops : list (Loop P);
  frames : gmap string Bytes;
  completedFrames : nat;
  ui_progress : Z;
  ui_processing : bool;
  ui_alerts : list string;
  terminated : bool;
  (** how the [try] block of [extractFrames] ended, once it has *)
  outcome : option (Settled Download);
  trace : list (Effect P)
}.
Arguments frameQueue {P} s.
Arguments currentTime {P} s.
Arguments seeking {P} s.
Arguments listeners {P} s.
Arguments loops {P} s.
Arguments frames {P} s.
Arguments completedFrames {P} s.
Arguments ui_progress {P} s.
Arguments ui_processing {P} s.
Arguments ui_alerts {P} s.
Arguments terminated {P} s.
Arguments outcome {P} s.
Arguments trace {P} s.

(** The events the browser delivers to the main thread. *)
Inductive Event :=
| Seeked
| Message (w : nat).

Section FrameLoop.
Variable P : Platform.
Variable video : Video P.
Variable settings : VideoSettings.
Variable totalFrames : Z.
Variable frameInterval : Time P.
Variable originalFilename : string.

(** The [while] loop that fills [frameQueue]; [None] when [fuel] runs out. *)
Fixpoint fill_queue (fuel : nat) (frameQueue : list (Time P))
    (currentTime : Time P) : option (list (Time P)) :=
  match fuel with
  | O => None
  | S fuel' =>
      if (Z.of_nat (length frameQueue) <? totalFrames)%Z
         && t_lt P currentTime (duration video)
      then fill_queue fuel' (frameQueue ++ [currentTime])
             (t_add P currentTime frameInterval)
      else Some frameQueue
  end.

Definition build_queue : list (Time P) :=
  default [] (fill_queue (S (Z.to_nat totalFrames)) [] (t_zero P)).

(** The [finally] block, after the [catch] block when [failed]. *)
Definition settle (res : Settled Download) (s : State P) : State P :=
  {| frameQueue := frameQueue s; currentTime := currentTime s;
     seeking := seeking s; listeners := listeners s; loops := loops s;
     frames := frames s; completedFrames := completedFrames s;
     ui_progress := 0; ui_processing := false;
     ui_alerts :=
       match res with
       | Rejected _ =>
           ui_alerts s ++ ["An error occurred while processing frames"]
       | Resolved _ => ui_alerts s
       end;
     terminated := true; outcome := Some res;
     trace :=
       trace s ++
       match res with
       | Rejected _ =>
           [Alert "An error occurred while processing frames";
            TerminateWorkers]
       | Resolved _ => [TerminateWorkers]
       end |}.

(** [Promise.all] rejects with the first error; later ones are dropped. *)
Definition reject_all (e : string) (s : State P) : State P :=
  match outcome s with
  | Some _ => s
  | None => settle (Rejected e) s
  end.

Definition all_returned (ls : list (Loop P)) : bool :=
  forallb (fun l => match l with Returned => true | _ => false end) ls.

(** [Promise.all] resolves once every loop has returned; compression and
    download follow. *)
Definition resolve_all (s : State P) : State P :=
  match outcome s with
  | Some _ => s
  | None =>
      if all_returned (loops s) then
        match compressFrames P (frames s) with
        | Resolved compressedData =>
            settle (Resolved (createDownload compressedData
                                originalFilename (date_now P))) s
        | Rejected e => settle (Rejected e) s
        end
      else s
  end.

Definition set_loop (w : nat) (l : Loop P) (s : State P) : State P :=
  {| frameQueue := frameQueue s; currentTime := currentTime s;
     seeking := seeking s; listeners := listeners s;
     loops := <[w := l]> (loops s);
     frames := frames s; completedFrames := completedFrames s;
     ui_progress := ui_progress s; ui_processing := ui_processing s;
     ui_alerts := ui_alerts s; terminated := terminated s;
     outcome := outcome s; trace := trace s |}.

Definition log (es : list (Effect P)) (s : State P) : State P :=
  {| frameQueue := frameQueue s; currentTime := currentTime s;
     seeking := seeking s; listeners := listeners s; loops := loops s;
     frames := frames s; completedFrames := completedFrames s;
     ui_progress := ui_progress s; ui_processing := ui_processing s;
     ui_alerts := ui_alerts s; terminated := terminated s;
     outcome := outcome s; trace := trace s ++ es |}.

(** The head of the [while] loop of [processNextBatch], up to its first
    [await]. *)
Definition loop_head (w : nat) (s : State P) : State P :=
  match frameQueue s with
  | [] => resolve_all (set_loop w Returned s)
  | frameTime :: rest =>
      {| frameQueue := rest; currentTime := frameTime; seeking := true;
         listeners := listeners s ++ [w];
         loops := <[w := AwaitSeeked frameTime]> (loops s);
         frames := frames s; completedFrames := completedFrames s;
         ui_progress := ui_progress s; ui_processing := ui_processing s;
         ui_alerts := ui_alerts s; terminated := terminated s;
         outcome := outcome s;
         trace := trace s ++ [Shift w frameTime; SetCurrentTime w frameTime;
                              ListenSeeked w] |}
  end.

Definition truthy (maxWidth : option Z) : option Z :=
  match maxWidth with
  | Some m => if (m =? 0)%Z then None else Some m
  | None => None
  end.

Definition target_size : Z * Z :=
  match truthy (maxWidth settings) with
  | Some m =>
      let ratio := (inject_Z m / inject_Z (videoWidth video))%Q in
      (m, Math_round (inject_Z (videoHeight video) * ratio))
  | None => (videoWidth video, videoHeight video)
  end.

Definition size_reads (w : nat) : list (Effect P) :=
  [ReadVideo w "videoWidth"; ReadVideo w "videoHeight"] ++
  match truthy (maxWidth settings) with
  | Some _ => [ReadVideo w "videoWidth"; ReadVideo w "videoHeight"]
  | None => []
  end.

(** A loop resumed by its [seeked] listener: capture the frame and hand
    it to the loop's worker. *)
Definition after_seeked (w : nat) (s : State P) : State P :=
  match loops s !! w with
  | Some (AwaitSeeked frameTime) =>
      if canvas_context P then
        let '(targetWidth, targetHeight) := target_size in
        let imageData :=
          drawn video (currentTime s) targetWidth targetHeight in
        log (size_reads w ++
             [DrawImage w (currentTime s); PostFrame w (completedFrames s)])
          (set_loop w (AwaitWorker frameTime imageData (completedFrames s)) s)
      else
        reject_all "Failed to get context"
          (set_loop w (Threw "Failed to get context") s)
  | _ => s
  end.

Definition progress_percent (completed : nat) : Z :=
  Math_round (inject_Z (Z.of_nat completed) / inject_Z totalFrames * 100)%Q.

(** A loop resumed by the answer of its worker. *)
Definition after_message (w : nat) (s : State P) : State P :=
  match loops s !! w with
  | Some (AwaitWorker frameTime imageData frameNumber) =>
      match processFrameInWorker P imageData settings frameNumber with
      | Rejected e => reject_all e (set_loop w (Threw e) s)
      | Resolved frameData =>
          let filename :=
            generateFilename settings (completedFrames s) totalFrames
              (src video) in
          loop_head w
            {| frameQueue := frameQueue s; currentTime := currentTime s;
               seeking := seeking s; listeners := listeners s;
               loops := loops s;
               frames := <[filename := frameData]> (frames s);
               completedFrames := S (completedFrames s);
               ui_progress := progress_percent (S (completedFrames s));
               ui_processing := ui_processing s;
               ui_alerts := ui_alerts s; terminated := terminated s;
               outcome := outcome s;
               trace := trace s ++
                        [ReadVideo w "src";
                         StoreFrame w frameTime filename imageData] |}
      end
  | _ => s
  end.

Definition dispatch_seeked (s : State P) : State P :=
  foldl (fun s w => after_seeked w s)
    {| frameQueue := frameQueue s; currentTime := currentTime s;
       seeking := false; listeners := [];
       loops := loops s; frames := frames s;
       completedFrames := completedFrames s;
       ui_progress := ui_progress s; ui_processing := ui_processing s;
       ui_alerts := ui_alerts s; terminated := terminated s;
       outcome := outcome s; trace := trace s ++ [SeekedEvent] |}
    (listeners s).

Definition awaits_worker (l : option (Loop P)) : bool :=
  match l with Some (AwaitWorker _ _ _) => true | _ => false end.

Definition enabled (ev : Event) (s : State P) : bool :=
  match ev with
  | Seeked => seeking s
  | Message w => negb (terminated s) && awaits_worker (loops s !! w)
  end.

(** One turn of the event loop. *)
Definition step (ev : Event) (s : State P) : option (State P) :=
  if enabled ev s then
    Some match ev with
         | Seeked => dispatch_seeked s
         | Message w => after_message w s
         end
  else None.

Fixpoint run (evs : list Event) (s : State P) : option (State P) :=
  match evs with
  | [] => Some s
  | ev :: evs' =>
      match step ev s with
      | Some s' => run evs' s'
      | None => None
      end
  end.

(** [processFramesWithWorkers] up to [Promise.all]: every loop is started
    in turn and runs to its first [await]. *)
Definition start (workers : nat) : State P :=
  resolve_all
    (foldl (fun s w => loop_head w s)
       {| frameQueue := build_queue; currentTime := t_zero P;
          seeking := false; listeners := [];
          loops := replicate workers NotStarted;
          frames := ∅; completedFrames := 0;
          ui_progress := 0; ui_processing := true; ui_alerts := [];
          terminated := false; outcome := None; trace := [] |}
       (seq 0 workers)).

End FrameLoop.

(** [navigator.hardwareConcurrency || 4] *)
Definition worker_count (hardwareConcurrency : nat) : nat :=
  match hardwareConcurrency with O => 4 | n => n end.

(** The [switch] of [extractFrames]: the frame count and the interval. *)
Definition extraction_plan (P : Platform) (settings : VideoSettings)
    (duration : Time P) : Z * Time P :=
  match extractionMode settings with
  | all =>
      (t_ceil P (t_mul P duration (t_of_Z P 60)),
       t_div P (t_of_Z P 1) (t_of_Z P 60))
  | interval =>
      (t_ceil P (t_mul P duration (t_of_Z P (framesPerSecond settings))),
       t_div P (t_of_Z P 1) (t_of_Z P (framesPerSecond settings)))
  | count =>
      (totalFrames settings,
       t_div P duration (t_of_Z P (totalFrames settings)))
  end.

(** [extractFrames] up to the first event: [None] when the guard at its head
    returns (no video element, no canvas element or no selected file). *)
Definition extractFrames (P : Platform) (videoRef : option (Video P))
    (canvasRef : bool) (settings : VideoSettings) (videoFile : option File)
    (hardwareConcurrency : nat) : option (State P) :=
  match videoRef, canvasRef, videoFile with
  | Some video, true, Some file =>
      let '(totalFramesToExtract, frameInterval) :=
        extraction_plan P settings (duration video) in
      Some (start P video totalFramesToExtract frameInterval (file_name file)
              (worker_count hardwareConcurrency))
  | _, _, _ => None
  end.

(** ** A reference platform

    Positions are exact rationals, an image is the position it shows with
    its size, and the codecs write what they are given in the clear. The
    serializer knows the three registered types and fails on the positions
    [broken] selects. *)

Definition byte_of_Z (z : Z) : Byte.byte :=
  default Byte.x00 (Byte.of_N (Z.to_N (z mod 256))).

Definition registered_type (type : string) : bool :=
  bool_decide (type ∈ ["image/png"; "image/jpeg"; "image/webp"]).

Definition reference_platform (broken : Q -> bool) : Platform :=
  {| Time := Q;
     t_zero := 0%Q;
     t_add := fun a b => Qred (a + b);
     t_mul := fun a b => Qred (a * b);
     t_div := fun a b => Qred (a / b);
     t_lt := fun a b => negb (Qle_bool b a);
     t_of_Z := inject_Z;
     t_ceil := Qceiling;
     Image := Q * (Z * Z);
     canvas_context := true;
     offscreen_context := fun _ => true;
     supported_type := registered_type;
     encode := fun type img _ =>
       if broken (fst img) then inl "EncodingError"
       else inr (bytes_of_string type ++
                 [byte_of_Z (Qnum (fst img));
                  byte_of_Z (Zpos (Qden (fst img)))])%list;
     deflate := fun files _ =>
       inr (concat (map (fun '(name, data) =>
                           (bytes_of_string name ++ data)%list)
                      (map_to_list files)));
     date_now := 1700000000000%Z |}.

Definition reference_video (broken : Q -> bool) (length : Q)
    : Video (reference_platform broken) :=
  Build_Video (reference_platform broken) length 640%Z 360%Z "blob:null/0"
    (fun t w h => (t, (w, h))).

(** ** Vocabulary of the properties *)

(** A non-empty run of characters with no dot and no slash. *)
Definition extension_chars (ext : string) : Prop :=
  ext <> "" /\
  forall c, In c (list_ascii_of_string ext) -> c <> "."%char /\ c <> "/"%char.

(** [stem] is [name] without its final extension, or [name] itself when it
    has none. *)
Definition final_extension_stripped (name stem : string) : Prop :=
  (exists ext, extension_chars ext /\ name = stem +:+ "." +:+ ext) \/
  (stem = name /\
   forall base ext, extension_chars ext -> name <> base +:+ "." +:+ ext).

Definition only_zeros (z : string) : Prop :=
  forall c, In c (list_ascii_of_string z) -> c = "0"%char.

(** [padded] is [digits] with zeros in front, up to [width] characters. *)
Definition zero_padded (width : nat) (digits padded : string) : Prop :=
  exists zeros,
    only_zeros zeros /\ padded = zeros +:+ digits /\
    String.length padded = Nat.max width (String.length digits).

Definition has_pct_i (s : string) : Prop := exists a b, s = a +:+ "%i" +:+ b.

(** [pattern] is cut at its occurrences of ["%i"], and [result] is the same
    pieces joined by [replacement]. *)
Definition every_pct_i_replaced (pattern replacement result : string) : Prop :=
  exists pieces,
    Forall (fun p => ~ has_pct_i p) pieces /\
    pattern = String.concat "%i" pieces /\
    result = String.concat replacement pieces.

(** The width of the frame number, as the specification words it. *)
Definition spec_width (n : Z) : nat :=
  if (n <? 100)%Z then 2
  else if (n <? 1000)%Z then 3
  else if (n <? 10000)%Z then 4 else 5.

(** What is left to do: a queued time costs three turns at most. *)
Definition loop_weight {P} (l : Loop P) : nat :=
  match l with
  | AwaitSeeked _ => 2
  | AwaitWorker _ _ _ => 1
  | _ => 0
  end.

Definition pending_work {P} (s : State P) : nat :=
  3 * length (frameQueue s) + sum_list (loop_weight <$> loops s)
  + (if seeking s then 1 else 0).

(** The states of a run in which nothing fails; loops below [k] have been
    started. *)
Record healthy {P} (k : nat) (s : State P) : Prop := {
  h_alive : outcome s = None -> terminated s = false;
  h_threw : forall w e, loops s !! w <> Some (Threw e);
  h_done : is_Some (outcome s) -> all_returned P (loops s) = true;
  h_started : forall w, loops s !! w = Some NotStarted -> k <= w
}.

Definition waiting_listed {P} (ws : list nat) (s : State P) : Prop :=
  forall w t, loops s !! w = Some (AwaitSeeked t) -> w ∈ ws.

(** A loop that waits for [seeked] has its listener in place and a seek
    under way. *)
Definition seek_pending {P} (s : State P) : Prop :=
  forall w t, loops s !! w = Some (AwaitSeeked t) ->
    seeking s = true /\ w ∈ listeners s.

(** The properties of the video element that tell whether a seek is over. *)
Definition seek_indicator (property : string) : bool :=
  bool_decide (property ∈ ["seeking"; "readyState"; "mozDecodedFrames";
                           "webkitDecodedFrameCount"]).

(** Every frame is drawn after its loop has read a seek indicator. *)
Definition polled_before_drawing {P} (tr : list (Effect P)) : Prop :=
  forall pre w shown post,
    tr = (pre ++ DrawImage w shown :: post)%list ->
    exists property,
      seek_indicator property = true /\ ReadVideo w property ∈ pre.

(** The times taken off the queue, with the loop that took each. *)
Definition shift_log {P} (tr : list (Effect P)) : list (nat * Time P) :=
  omap (fun e => match e with Shift w t => Some (w, t) | _ => None end) tr.

Definition allowed {P} (draws : nat -> Time P -> Prop) (e : Effect P) : Prop :=
  match e with
  | DrawImage w shown => draws w shown
  | ReadVideo _ property => seek_indicator property = false
  | _ => True
  end.

(** What a turn adds to the trace, and what it takes off the queue. *)
Definition extends {P} (draws : nat -> Time P -> Prop) (s s' : State P)
    : Prop :=
  exists new,
    trace s' = (trace s ++ new)%list /\
    Forall (allowed draws) new /\
    ((shift_log new).*2 ++ frameQueue s')%list = frameQueue s.

(** Once the extraction is over, [s'] differs from [s] in its loops and
    its trace at most. *)
Definition frozen {P} (s s' : State P) : Prop :=
  terminated s' = true /\ outcome s' = outcome s /\
  frames s' = frames s /\ frameQueue s' = frameQueue s /\
  completedFrames s' = completedFrames s /\
  ui_alerts s' = ui_alerts s /\ ui_progress s' = ui_progress s /\
  ui_processing s' = ui_processing s.

(** ** Sample runs on the reference platform *)

Definition sound_platform : Platform := reference_platform (fun _ => false).

Definition sound_video (length : Q) : Video sound_platform :=
  reference_video (fun _ => false) length.

(** The serializer of this platform fails on the frame at position 0. *)
Definition faulty_platform : Platform :=
  reference_platform (fun t => Qeq_bool t 0).

Definition faulty_video (length : Q) : Video faulty_platform :=
  reference_video (fun t => Qeq_bool t 0) length.

Definition clip : File :=
  {| file_name := "clip.mp4"; file_type := "video/mp4"; file_content := [] |}.

Definition count_settings (n : Z) : VideoSettings :=
  {| format := webp; quality := 1; maxWidth := None; extractionMode := count;
     filenamePattern := "frame_%i"; useOriginalName := false;
     framesPerSecond := 60; totalFrames := n |}.

(** A run on [platform]: [frames] frames, one per second, of a video of
    [frames] seconds, with [workers] loops and the events [evs]. *)
Definition sample_run (broken : Q -> bool) (frames : Z) (workers : nat)
    (evs : list Event) : option (State (reference_platform broken)) :=
  match extractFrames (reference_platform broken)
          (Some (reference_video broken (inject_Z frames))) true
          (count_settings frames) (Some clip) workers with
  | Some s =>
      run (reference_platform broken)
        (reference_video broken (inject_Z frames))
        (count_settings frames) frames "clip.mp4" evs s
  | None => None
  end.

(** Second [n] of the sample video, and the picture it shows then. *)
Definition second (n : Z) : Time sound_platform := inject_Z n.

Definition still (n : Z) : Image sound_platform := (inject_Z n, (640%Z, 360%Z)).

(** The faulty run after its first [seeked] event: the only loop waits for
    its worker. *)
Definition stalled_state : State faulty_platform :=
  let t0 : Time faulty_platform := 0%Q in
  let picture : Image faulty_platform := (0%Q, (640%Z, 360%Z)) in
  {| frameQueue := []; currentTime := t0; seeking := false; listeners := [];
     loops := [AwaitWorker t0 picture 0];
     frames := ∅; completedFrames := 0;
     ui_progress := 0; ui_processing := true; ui_alerts := [];
     terminated := false; outcome := None;
     trace := [Shift 0 t0; SetCurrentTime 0 t0; ListenSeeked 0; SeekedEvent;
               ReadVideo 0 "videoWidth"; ReadVideo 0 "videoHeight";
               DrawImage 0 t0; PostFrame 0 0] |}.

(** The trace of one loop capturing one frame. *)
Definition one_capture_trace : list (Effect sound_platform) :=
  [Shift 0 (second 0); SetCurrentTime 0 (second 0); ListenSeeked 0;
   SeekedEvent;
   ReadVideo 0 "videoWidth"; ReadVideo 0 "videoHeight";
   DrawImage 0 (second 0); PostFrame 0 0].

(** The trace of two loops capturing the two frames of a two-second video. *)
Definition race_trace : list (Effect sound_platform) :=
  [Shift 0 (second 0); SetCurrentTime 0 (second 0); ListenSeeked 0;
   Shift 1 (second 1); SetCurrentTime 1 (second 1); ListenSeeked 1;
   SeekedEvent;
   ReadVideo 0 "videoWidth"; ReadVideo 0 "videoHeight";
   DrawImage 0 (second 1); PostFrame 0 0;
   ReadVideo 1 "videoWidth"; ReadVideo 1 "videoHeight";
   DrawImage 1 (second 1); PostFrame 1 0;
   ReadVideo 0 "src"; StoreFrame 0 (second 0) "frame_00.webp" (still 1);
   ReadVideo 1 "src"; StoreFrame 1 (second 1) "frame_01.webp" (still 1);
   TerminateWorkers].

(** ** Vocabulary of the further properties *)

(** The number a run of decimal digits writes. *)
Definition read_number (s : string) : option nat :=
  option_map Nat.of_uint (NilZero.uint_of_string s).

(** The state [processFramesWithWorkers] begins with. *)
Definition initial_state (P : Platform) (video : Video P) (totalFrames : Z)
    (frameInterval : Time P) (workers : nat) : State P :=
  {| frameQueue := build_queue P video totalFrames frameInterval;
     currentTime := t_zero P; seeking := false; listeners := [];
     loops := replicate workers NotStarted;
     frames := ∅; completedFrames := 0;
     ui_progress := 0; ui_processing := true; ui_alerts := [];
     terminated := false; outcome := None; trace := [] |}.

(** The state in which the listeners of a [seeked] event are called. *)
Definition seeked_reset {P} (s : State P) : State P :=
  {| frameQueue := frameQueue s; currentTime := currentTime s;
     seeking := false; listeners := [];
     loops := loops s; frames := frames s;
     completedFrames := completedFrames s;
     ui_progress := ui_progress s; ui_processing := ui_processing s;
     ui_alerts := ui_alerts s; terminated := terminated s;
     outcome := outcome s; trace := (trace s ++ [SeekedEvent])%list |}.

(** A loop resumed by [seeked] that has drawn its frame and posted it. *)
Definition captured (P : Platform) (video : Video P)
    (settings : VideoSettings) (w : nat) (frameTime : Time P) (s : State P)
    : State P :=
  log P (size_reads P settings w ++
         [DrawImage w (currentTime s); PostFrame w (completedFrames s)])
    (set_loop P w
       (AwaitWorker frameTime
          (drawn video (currentTime s) (target_size P video settings).1
             (target_size P video settings).2)
          (completedFrames s)) s).

(** A loop resumed by its worker that has stored the frame. *)
Definition stored (P : Platform) (video : Video P) (settings : VideoSettings)
    (totalFrames : Z) (w : nat) (frameTime : Time P) (imageData : Image P)
    (frameData : Bytes) (s : State P) : State P :=
  {| frameQueue := frameQueue s; currentTime := currentTime s;
     seeking := seeking s; listeners := listeners s; loops := loops s;
     frames :=
       <[generateFilename settings (completedFrames s) totalFrames
           (src video) := frameData]> (frames s);
     completedFrames := S (completedFrames s);
     ui_progress := progress_percent totalFrames (S (completedFrames s));
     ui_processing := ui_processing s;
     ui_alerts := ui_alerts s; terminated := terminated s;
     outcome := outcome s;
     trace := (trace s ++
               [ReadVideo w "src";
                StoreFrame w frameTime
                  (generateFilename settings (completedFrames s) totalFrames
                     (src video)) imageData])%list |}.

(** The states of the runs of [processFramesWithWorkers]. *)
Definition reachable (P : Platform) (video : Video P)
    (settings : VideoSettings) (totalFrames : Z) (frameInterval : Time P)
    (originalFilename : string) (workers : nat) (s : State P) : Prop :=
  exists evs,
    run P video settings totalFrames originalFilename evs
      (start P video totalFrames frameInterval originalFilename workers)
    = Some s.

(** How the [try] block of [extractFrames] ends once every loop has
    returned: compression, then download. *)
Definition settled_result (P : Platform) (originalFilename : string)
    (frames : gmap string Bytes) : Settled Download :=
  match compressFrames P frames with
  | Resolved compressedData =>
      Resolved (createDownload compressedData originalFilename (date_now P))
  | Rejected e => Rejected e
  end.

(** What the page shows of the extraction, by its outcome. *)
Definition settled_view {P} (s : State P) : Prop :=
  match outcome s with
  | None =>
      terminated s = false /\ ui_alerts s = [] /\ ui_processing s = true
  | Some r =>
      terminated s = true /\ ui_processing s = false /\
      ui_progress s = 0%Z /\
      ui_alerts s =
        match r with
        | Rejected _ => ["An error occurred while processing frames"]
        | Resolved _ => []
        end
  end.

(** The outcome against the loops: pending while a loop is at work,
    rejected by a loop that threw, or settled by compression. *)
Definition outcome_view (P : Platform) (originalFilename : string)
    (s : State P) : Prop :=
  match outcome s with
  | None => all_returned P (loops s) = false
  | Some (Resolved d) =>
      all_returned P (loops s) = true /\
      settled_result P originalFilename (frames s) = Resolved d
  | Some (Rejected e) =>
      (exists w e', loops s !! w = Some (Threw e')) \/
      (all_returned P (loops s) = true /\
       settled_result P originalFilename (frames s) = Rejected e)
  end.

(** The names under which frames were stored, in the order of storing. *)
Definition store_names {P} (tr : list (Effect P)) : list string :=
  omap (fun e => match e with
                 | StoreFrame _ _ name _ => Some name
                 | _ => None
                 end) tr.

(** The frames record against the frame counter. *)
Definition names_view (P : Platform) (video : Video P)
    (settings : VideoSettings) (totalFrames : Z) (s : State P) : Prop :=
  store_names (trace s)
  = (fun k => generateFilename settings k totalFrames (src video))
      <$> seq 0 (completedFrames s) /\
  dom (frames s) = list_to_set (store_names (trace s)).

(** A loop that holds a time off the queue. *)
Definition busy {P} (l : Loop P) : nat :=
  match l with
  | AwaitSeeked _ | AwaitWorker _ _ _ | Threw _ => 1
  | _ => 0
  end.

(** Every queued time is in the queue, with a loop, or counted as done. *)
Definition accounted (P : Platform) (video : Video P) (totalFrames : Z)
    (frameInterval : Time P) (s : State P) : Prop :=
  completedFrames s + length (frameQueue s) + sum_list (busy <$> loops s)
  = length (build_queue P video totalFrames frameInterval) /\
  ((exists w, loops s !! w = Some Returned) -> frameQueue s = []) /\
  (ui_progress s = 0%Z \/
   exists k, k <= completedFrames s /\
             ui_progress s = progress_percent totalFrames k).



(** The time of frame [k]: [frameInterval] added [k] times to 0. *)
Fixpoint frame_time (P : Platform) (frameInterval : Time P) (k : nat)
    : Time P :=
  match k with
  | O => t_zero P
  | S k' => t_add P (frame_time P frameInterval k') frameInterval
  end.



(** ** The settings panel *)

(** A change made in the settings panel. Numbers are what [parseInt] gives
    for the text of the control; for the number typed as [totalFrames],
    [None] is [NaN]. [SetMaxWidth None] is the option ['original']. *)
Inductive SettingsChange :=
| SetFormat (value : Format)
| SetExtractionMode (value : ExtractionMode)
| SetFramesPerSecond (parsed : Z)
| SetTotalFrames (parsed : option Z)
| SetQuality (parsed : Z)
| SetMaxWidth (value : option Z)
| SetFilenamePattern (value : string)
| SetUseOriginalName (checked : bool).

(** [Math.max(1, parseInt(e.target.value) || 1)] *)
Definition typed_total (parsed : option Z) : Z :=
  Z.max 1 match parsed with
          | Some n => if (n =? 0)%Z then 1 else n
          | None => 1
          end.

(** The [onChange] handlers of the panel: [setSettings({...settings, ..})]. *)
Definition setSettings (change : SettingsChange) (settings : VideoSettings)
    : VideoSettings :=
  match change with
  | SetFormat value =>
      {| format := value; quality := quality settings;
         maxWidth := maxWidth settings;
         extractionMode := extractionMode settings;
         framesPerSecond := framesPerSecond settings;
         totalFrames := totalFrames settings;
         filenamePattern := filenamePattern settings;
         useOriginalName := useOriginalName settings |}
  | SetExtractionMode value =>
      {| format := format settings; quality := quality settings;
         maxWidth := maxWidth settings; extractionMode := value;
         framesPerSecond := framesPerSecond settings;
         totalFrames := totalFrames settings;
         filenamePattern := filenamePattern settings;
         useOriginalName := useOriginalName settings |}
  | SetFramesPerSecond parsed =>
      {| format := format settings; quality := quality settings;
         maxWidth := maxWidth settings;
         extractionMode := extractionMode settings;
         framesPerSecond := parsed;
         totalFrames := totalFrames settings;
         filenamePattern := filenamePattern settings;
         useOriginalName := useOriginalName settings |}
  | SetTotalFrames parsed =>
      {| format := format settings; quality := quality settings;
         maxWidth := maxWidth settings;
         extractionMode := extractionMode settings;
         framesPerSecond := framesPerSecond settings;
         totalFrames := typed_total parsed;
         filenamePattern := filenamePattern settings;
         useOriginalName := useOriginalName settings |}
  | SetQuality parsed =>
      {| format := format settings; quality := inject_Z parsed / 100;
         maxWidth := maxWidth settings;
         extractionMode := extractionMode settings;
         framesPerSecond := framesPerSecond settings;
         totalFrames := totalFrames settings;
         filenamePattern := filenamePattern settings;
         useOriginalName := useOriginalName settings |}
  | SetMaxWidth value =>
      {| format := format settings; quality := quality settings;
         maxWidth := value;
         extractionMode := extractionMode settings;
         framesPerSecond := framesPerSecond settings;
         totalFrames := totalFrames settings;
         filenamePattern := filenamePattern settings;
         useOriginalName := useOriginalName settings |}
  | SetFilenamePattern value =>
      {| format := format settings; quality := quality settings;
         maxWidth := maxWidth settings;
         extractionMode := extractionMode settings;
         framesPerSecond := framesPerSecond settings;
         totalFrames := totalFrames settings;
         filenamePattern := value;
         useOriginalName := useOriginalName settings |}
  | SetUseOriginalName checked =>
      {| format := format settings; quality := quality settings;
         maxWidth := maxWidth settings;
         extractionMode := extractionMode settings;
         framesPerSecond := framesPerSecond settings;
         totalFrames := totalFrames settings;
         filenamePattern := filenamePattern settings;
         useOriginalName := checked |}
  end.

(** ** The other handlers of the component *)

(** [onDragOver] of the drop zone. *)
Definition onDragOver (st : AppState) : AppState :=
  {| isDragging := true; videoFile := videoFile st;
     isProcessing := isProcessing st; progress := progress st;
     showSettings := showSettings st; isPlaying := isPlaying st;
     videoUrl := videoUrl st; alerts := alerts st |}.

(** [onDragLeave] of the drop zone. *)
Definition onDragLeave (st : AppState) : AppState :=
  {| isDragging := false; videoFile := videoFile st;
     isProcessing := isProcessing st; progress := progress st;
     showSettings := showSettings st; isPlaying := isPlaying st;
     videoUrl := videoUrl st; alerts := alerts st |}.

(** [handleFileInput]: [files] is [e.target.files], [None] when it is
    [null]. *)
Definition handleFileInput (createObjectURL : File -> string)
    (files : option (list File)) (st : AppState) : AppState :=
  match files with
  | Some (file :: _) => handleFileSelect createObjectURL (Some file) st
  | _ => st
  end.

(** The calls [togglePlayback] makes on the video element. *)
Inductive PlayerCall := pause | play.

(** [togglePlayback]; [videoRef] tells whether [videoRef.current] is set. *)
Definition togglePlayback (videoRef : bool) (st : AppState)
    : AppState * list PlayerCall :=
  if videoRef then
    ({| isDragging := isDragging st; videoFile := videoFile st;
        isProcessing := isProcessing st; progress := progress st;
        showSettings := showSettings st; isPlaying := negb (isPlaying st);
        videoUrl := videoUrl st; alerts := alerts st |},
     [if isPlaying st then pause else play])
  else (st, []).

(** [onEnded] of the video element. *)
Definition onEnded (st : AppState) : AppState :=
  {| isDragging := isDragging st; videoFile := videoFile st;
     isProcessing := isProcessing st; progress := progress st;
     showSettings := showSettings st; isPlaying := false;
     videoUrl := videoUrl st; alerts := alerts st |}.

(** [onClick] of the button that closes the preview. *)
Definition removeVideo (st : AppState) : AppState :=
  {| isDragging := isDragging st; videoFile := None;
     isProcessing := isProcessing st; progress := progress st;
     showSettings := showSettings st; isPlaying := false;
     videoUrl := ""; alerts := alerts st |}.

(** [onClick] of the settings button. *)
Definition toggleSettings (st : AppState) : AppState :=
  {| isDragging := isDragging st; videoFile := videoFile st;
     isProcessing := isProcessing st; progress := progress st;
     showSettings := negb (showSettings st); isPlaying := isPlaying st;
     videoUrl := videoUrl st; alerts := alerts st |}.

(** The [<video>] element that carries [videoRef] is rendered under
    [{videoFile && ...}]: the ref is set while a file is selected. *)
Definition videoRef_current (st : AppState) : bool :=
  match videoFile st with Some _ => true | None => false end.

(** What the user does on the page. *)
Inductive Action :=
| DragOver
| DragLeave
| Drop (files : list File)
| FileInput (files : option (list File))
| TogglePlayback
| Ended
| RemoveVideo
| ToggleSettings.

Definition act (createObjectURL : File -> string) (a : Action)
    (st : AppState) : AppState :=
  match a with
  | DragOver => onDragOver st
  | DragLeave => onDragLeave st
  | Drop files => handleDrop createObjectURL files st
  | FileInput files => handleFileInput createObjectURL files st
  | TogglePlayback => (togglePlayback (videoRef_current st) st).1
  | Ended => onEnded st
  | RemoveVideo => removeVideo st
  | ToggleSettings => toggleSettings st
  end.

(** The preview shows the selected file, which is a video by its type;
    nothing plays when no file is selected. *)
Definition selection_consistent (createObjectURL : File -> string)
    (st : AppState) : Prop :=
  match videoFile st with
  | Some file =>
      JS.startsWith (file_type file) "video/" = true /\
      videoUrl st = createObjectURL file
  | None => videoUrl st = "" /\ isPlaying st = false
  end.

(** ** More sample runs *)

(** A browser that gives no 2D context. *)
Definition headless_platform : Platform :=
  {| Time := Q;
     t_zero := 0%Q;
     t_add := fun a b => Qred (a + b);
     t_mul := fun a b => Qred (a * b);
     t_div := fun a b => Qred (a / b);
     t_lt := fun a b => negb (Qle_bool b a);
     t_of_Z := inject_Z;
     t_ceil := Qceiling;
     Image := Q * (Z * Z);
     canvas_context := false;
     offscreen_context := fun _ => false;
     supported_type := registered_type;
     encode := fun _ _ _ => inl "EncodingError";
     deflate := fun _ _ => inl "no archive";
     date_now := 1700000000000%Z |}.

Definition headless_video : Video headless_platform :=
  Build_Video headless_platform 1%Q 640%Z 360%Z "blob:null/0"
    (fun t w h => (t, (w, h))).

(** What the serializer of the sample platform writes for WebP at second 0. *)
Definition webp_0 : Bytes :=
  (bytes_of_string "image/webp" ++ [Byte.x00; Byte.x01])%list.

(** One loop on a two-second video, after the first frame is stored. *)
Definition half_done : State sound_platform :=
  {| frameQueue := []; currentTime := second 1; seeking := true;
     listeners := [0]; loops := [AwaitSeeked (second 1)];
     frames := {[ "frame_00.webp" := webp_0 ]}; completedFrames := 1;
     ui_progress := 50; ui_processing := true; ui_alerts := [];
     terminated := false; outcome := None;
     trace := [Shift 0 (second 0); SetCurrentTime 0 (second 0);
               ListenSeeked 0; SeekedEvent;
               ReadVideo 0 "videoWidth"; ReadVideo 0 "videoHeight";
               DrawImage 0 (second 0); PostFrame 0 0; ReadVideo 0 "src";
               StoreFrame 0 (second 0) "frame_00.webp" (still 0);
               Shift 0 (second 1); SetCurrentTime 0 (second 1);
               ListenSeeked 0] |}.

(** One loop on a one-second video, after the download. *)
Definition all_done : State sound_platform :=
  {| frameQueue := []; currentTime := second 0; seeking := false;
     listeners := []; loops := [Returned];
     frames := {[ "frame_00.webp" := webp_0 ]}; completedFrames := 1;
     ui_progress := 0; ui_processing := false; ui_alerts := [];
     terminated := true;
     outcome :=
       Some (Resolved
               (AnchorDownload "frames_clip_1700000000000.zip"
                  (bytes_of_string "frame_00.webp" ++ webp_0)%list));
     trace := [Shift 0 (second 0); SetCurrentTime 0 (second 0);
               ListenSeeked 0; SeekedEvent;
               ReadVideo 0 "videoWidth"; ReadVideo 0 "videoHeight";
               DrawImage 0 (second 0); PostFrame 0 0; ReadVideo 0 "src";
               StoreFrame 0 (second 0) "frame_00.webp" (still 0);
               TerminateWorkers] |}.

(** Settings that name the frames after the video. *)
Definition named_settings : VideoSettings :=
  {| format := png; quality := 1; maxWidth := None; extractionMode := all;
     filenamePattern := "frame"; useOriginalName := true;
     framesPerSecond := 60; totalFrames := 100 |}.

(** * Properties *)

Lemma not_slash_dot_spec c :
  JS.not_slash_dot c = true <-> c <> "."%char /\ c <> "/"%char.
Proof.
  unfold JS.not_slash_dot. rewrite andb_true_iff, !negb_true_iff.
  rewrite <- !not_true_iff_false, !Ascii.eqb_eq. tauto.
Qed.

Lemma class_to_end_spec s :
  JS.class_to_end s = true <->
  forall c, In c (list_ascii_of_string s) -> c <> "."%char /\ c <> "/"%char.
Proof.
  induction s as [|a s IH]; simpl.
  - split; [intros _ c [] | reflexivity].
  - rewrite andb_true_iff, IH, not_slash_dot_spec. split.
    + intros [Ha Hs] c [<- | Hc]; auto.
    + intros H. split; [apply H; auto | intros c Hc; apply H; auto].
Qed.

Lemma ext_matches_here_spec s :
  JS.ext_matches_here s = true <->
  exists ext, extension_chars ext /\ s = "." +:+ ext.
Proof.
  unfold JS.ext_matches_here. split.
  - destruct s as [|d [|c s']]; try discriminate.
    rewrite !andb_true_iff, Ascii.eqb_eq. intros [[-> Hc] Hs].
    exists (String c s'). split; [|reflexivity]. split; [discriminate|].
    apply (class_to_end_spec (String c s')). simpl. by rewrite Hc, Hs.
  - intros (ext & [Hne Hcl] & ->). destruct ext as [|c s']; [done|].
    simpl. apply class_to_end_spec in Hcl. simpl in Hcl. 
    apply andb_true_iff in Hcl as [-> ->]. reflexivity.
Qed.

Lemma strip_extension_spec name :
  final_extension_stripped name (JS.strip_extension name).
Proof.
  induction name as [|a s IH].
  - right. split; [reflexivity|]. intros [|b base] ext _; discriminate.
  - cbn [JS.strip_extension]. destruct (JS.ext_matches_here (String a s)) eqn:E.
    + left. apply ext_matches_here_spec in E as (ext & Hext & ->). eauto.
    + destruct IH as [(ext & Hext & Hs) | [Hs Hno]].
      * left. exists ext. split; [done|].
        change (String a s = String a (JS.strip_extension s +:+ "." +:+ ext)).
        by f_equal.
      * right. rewrite Hs. split; [reflexivity|].
        intros [|b base] ext Hext Heq.
        -- assert (JS.ext_matches_here (String a s) = true); [|congruence].
           apply ext_matches_here_spec. eauto.
        -- simpl in Heq. injection Heq as _ Heq. by eapply Hno.
Qed.

Lemma string_app_cons a s t : String a s +:+ t = String a (s +:+ t).
Proof. reflexivity. Qed.

Lemma string_app_nil_l t : "" +:+ t = t.
Proof. reflexivity. Qed.

Lemma string_app_length s t :
  String.length (s +:+ t) = String.length s + String.length t.
Proof.
  induction s as [|a s IH]; [reflexivity|].
  rewrite string_app_cons. simpl. by rewrite IH.
Qed.

Lemma string_app_assoc s t u : (s +:+ t) +:+ u = s +:+ t +:+ u.
Proof.
  induction s as [|a s IH]; [reflexivity|].
  rewrite !string_app_cons. by rewrite IH.
Qed.

Lemma filler_zeros n cur :
  only_zeros cur ->
  only_zeros (JS.filler n "0" cur) /\ String.length (JS.filler n "0" cur) = n.
Proof.
  revert cur. induction n as [|n IH]; intros cur Hcur.
  - split; [intros c []|reflexivity].
  - destruct cur as [|a cur]; cbn [JS.filler].
    + destruct (IH "") as [Hz Hl]; [intros c []|].
      split; [|simpl; by rewrite Hl].
      intros c [<-|Hc]; [reflexivity|by apply Hz].
    + destruct (IH cur) as [Hz Hl]; [intros c Hc; apply Hcur; by right|].
      split; [|simpl; by rewrite Hl].
      intros c [<-|Hc]; [apply Hcur; by left|by apply Hz].
Qed.

Lemma padStart_zero_padded s width :
  zero_padded width s (JS.padStart s width "0").
Proof.
  unfold JS.padStart. destruct (Nat.leb_spec width (String.length s)) as [H|H].
  - exists "". split; [intros c []|]. split; [reflexivity|lia].
  - destruct (filler_zeros (width - String.length s) "0") as [Hz Hl].
    { intros c [<-|[]]. reflexivity. }
    eexists. split; [exact Hz|]. split; [reflexivity|].
    rewrite string_app_length, Hl. lia.
Qed.

Lemma concat_cons sep p q ps :
  String.concat sep (p :: q :: ps) = p +:+ sep +:+ String.concat sep (q :: ps).
Proof. reflexivity. Qed.

Lemma has_pct_i_cons c p :
  has_pct_i (String c p) ->
  (c = "%"%char /\ exists p', p = String "i" p') \/ has_pct_i p.
Proof.
  intros ([|a0 a] & b & H).
  - left. injection H as -> ->. eauto.
  - right. rewrite string_app_cons in H. injection H as _ ->. by exists a, b.
Qed.

Lemma replace_pct_i_cons c d s r :
  JS.replace_pct_i (String c (String d s)) r =
  if Ascii.eqb c "%" && Ascii.eqb d "i" then r +:+ JS.replace_pct_i s r
  else String c (JS.replace_pct_i (String d s) r).
Proof. reflexivity. Qed.

Lemma replace_pct_i_pieces s :
  exists p ps,
    Forall (fun p => ~ has_pct_i p) (p :: ps) /\
    s = String.concat "%i" (p :: ps) /\
    forall r, JS.replace_pct_i s r = String.concat r (p :: ps).
Proof.
  assert (forall n s, String.length s < n -> exists p ps,
    Forall (fun p => ~ has_pct_i p) (p :: ps) /\
    s = String.concat "%i" (p :: ps) /\
    forall r, JS.replace_pct_i s r = String.concat r (p :: ps)) as H;
    [|apply (H (S (String.length s))); lia].
  clear s. induction n as [|n IH]; intros s Hn; [lia|].
  destruct s as [|c s'].
  { exists "", []. repeat split; [|done..].
    constructor; [|constructor]. intros ([|? ?] & b & ?); discriminate. }
  destruct s' as [|d s''].
  { exists (String c ""), []. repeat split; [|done..].
    constructor; [|constructor].
    intros H. apply has_pct_i_cons in H as [(_ & p' & ?) | ([|? ?] & b & ?)];
      discriminate. }
  destruct (Ascii.eqb c "%" && Ascii.eqb d "i") eqn:E.
  - apply andb_true_iff in E as [Ec Ed].
    apply Ascii.eqb_eq in Ec, Ed. subst c d.
    destruct (IH s'') as (p & ps & Hall & -> & Hr); [simpl in Hn; lia|].
    exists "", (p :: ps). split; [|split].
    + constructor; [|done]. intros ([|? ?] & b & ?); discriminate.
    + reflexivity.
    + intros r. rewrite replace_pct_i_cons, Hr. reflexivity.
  - destruct (IH (String d s'')) as (p & ps & Hall & Hs & Hr);
      [simpl in *; lia|].
    exists (String c p), ps. split; [|split].
    + inversion Hall as [|? ? Hp Hps]; subst. constructor; [|done].
      intros H. apply has_pct_i_cons in H as [(-> & p' & ->) | H]; [|done].
      destruct ps as [|q ps]; simpl in Hs; injection Hs as -> _;
        by rewrite Ascii.eqb_refl in E.
    + rewrite Hs. by destruct ps.
    + intros r. rewrite replace_pct_i_cons, E, Hr. by destruct ps.
Qed.

Lemma paddingLength_spec n : paddingLength n = spec_width n.
Proof.
  unfold paddingLength, spec_width.
  repeat match goal with
         | |- context [(?a <=? ?b)%Z] => destruct (Z.leb_spec a b)
         | |- context [(?a <? ?b)%Z] => destruct (Z.ltb_spec a b)
         end; (reflexivity || lia).
Qed.

(** C9. [generateFilename] takes the pattern (the original name without its
    final extension followed by ["_%i"] when [useOriginalName] is set, the
    configured [filenamePattern] otherwise), replaces every occurrence of
    ["%i"] by the index padded with zeros to width 2, 3, 4 or 5 according to
    the total frame count, and appends ["."] and the configured format. *)
Theorem generateFilename_spec settings index n originalName :
  exists stem padded replaced,
    final_extension_stripped originalName stem /\
    zero_padded (spec_width n) (JS.String_of_nat index) padded /\
    every_pct_i_replaced
      (if useOriginalName settings then stem +:+ "_%i"
       else filenamePattern settings) padded replaced /\
    generateFilename settings index n originalName =
      replaced +:+ "." +:+ format_name (format settings).
Proof.
  exists (JS.strip_extension originalName),
    (JS.padStart (JS.String_of_nat index) (paddingLength n) "0").
  eexists. split; [apply strip_extension_spec|].
  split; [rewrite <- paddingLength_spec; apply padStart_zero_padded|].
  split; [|reflexivity].
  fold (filename_pattern settings originalName).
  destruct (replace_pct_i_pieces (filename_pattern settings originalName))
    as (p & ps & Hall & Hs & Hr).
  exists (p :: ps). auto.
Qed.

(** C10. [createDownload] streams the archive exactly when the blob is
    larger than 100 * 1024 * 1024 bytes; in both branches the file is named
    ["frames_"], the original file name without its final extension, an
    underscore, the current timestamp and [".zip"]. *)
Theorem createDownload_spec compressedData originalFilename now :
  let d := createDownload compressedData originalFilename now in
  (is_streaming d = true <->
   (100 * 1024 * 1024 < Z.of_nat (length (blob_content compressedData)))%Z) /\
  exists stem,
    final_extension_stripped originalFilename stem /\
    download_filename d =
      "frames_" +:+ stem +:+ "_" +:+ JS.String_of_Z now +:+ ".zip".
Proof.
  unfold createDownload.
  destruct (Z.ltb_spec (100 * 1024 * 1024)
              (Z.of_nat (length (blob_content compressedData)))) as [H|H];
    cbn [is_streaming download_filename].
  - split; [tauto|]. eexists. split; [apply strip_extension_spec|reflexivity].
  - split; [split; [discriminate|lia]|].
    eexists. split; [apply strip_extension_spec|reflexivity].
Qed.

Lemma startsWith_spec s p :
  JS.startsWith s p = true <-> exists rest, s = p +:+ rest.
Proof.
  revert s. induction p as [|a p IH]; intros s.
  - simpl. split; [eauto|]. by destruct s.
  - destruct s as [|b s]; simpl.
    + split; [discriminate|]. intros [rest H]. discriminate.
    + destruct (Ascii.eqb_spec a b) as [->|Hne].
      * rewrite IH. split; intros [rest H]; exists rest.
        -- by rewrite string_app_cons, H.
        -- rewrite string_app_cons in H. by injection H.
      * split; [discriminate|]. intros [rest H].
        rewrite string_app_cons in H. by injection H.
Qed.

(** C7. [handleFileSelect] accepts a file exactly when its MIME type starts
    with ["video/"]: it then records the file and its object URL and resets
    playback and progress; otherwise it alerts the user and leaves the
    selected file and URL as they were. *)
Theorem handleFileSelect_spec createObjectURL f st :
  let st' := handleFileSelect createObjectURL (Some f) st in
  ((exists rest, file_type f = "video/" +:+ rest) /\
   st' = {| isDragging := isDragging st; videoFile := Some f;
            isProcessing := isProcessing st; progress := 0;
            showSettings := showSettings st; isPlaying := false;
            videoUrl := createObjectURL f; alerts := alerts st |})
  \/
  (~ (exists rest, file_type f = "video/" +:+ rest) /\
   st' = alert "Please select a valid video file" st /\
   videoFile st' = videoFile st /\ videoUrl st' = videoUrl st /\
   alerts st' = (alerts st ++ ["Please select a valid video file"])%list).
Proof.
  cbn zeta. unfold handleFileSelect.
  destruct (JS.startsWith (file_type f) "video/") eqn:E.
  - left. split; [by apply startsWith_spec|reflexivity].
  - right. split; [|by repeat split].
    intros H%startsWith_spec. congruence.
Qed.




(** C2, at [format = jpg]. The encode worker asks for the type ["image/jpg"],
    which is not the type of JPEG (["image/jpeg"]): a serializer that knows
    the registered types writes PNG, and the bytes posted back for a [jpg]
    frame are those posted back for a [png] frame. For every format the type
    asked for is ["image/"] followed by the format. *)
Theorem frame_worker_jpg_answers_png :
  (forall P imageData fmt q,
     frame_worker_blob P imageData fmt q =
       convertToBlob P imageData ("image/" +:+ format_name fmt)
         (if decide (fmt = png) then None else Some q)) /\
  mimeType jpg = "image/jpg" /\
  (forall P imageData q blob,
     supported_type P "image/jpg" = false ->
     frame_worker_blob P imageData jpg q = Resolved blob ->
     blob_type blob = "image/png") /\
  forall (imageData : Image sound_platform) q frameNumber,
    exists bytes,
      frame_worker_blob sound_platform imageData jpg q =
        Resolved {| blob_type := "image/png"; blob_bytes := bytes |} /\
      frame_worker_onmessage sound_platform imageData jpg q frameNumber =
        WorkerSuccess frameNumber bytes /\
      frame_worker_onmessage sound_platform imageData png q frameNumber =
        WorkerSuccess frameNumber bytes.
Proof.
  split; [reflexivity|]. split; [reflexivity|]. split.
  - intros P imageData q blob Hs. unfold frame_worker_blob, convertToBlob.
    change (mimeType jpg) with "image/jpg". rewrite Hs.
    destruct (encode P "image/png" imageData None); [discriminate|].
    by intros [= <-].
  - intros imageData q frameNumber. eexists. repeat split; reflexivity.
Qed.

Section FrameLoopFacts.
Variable P : Platform.
Variable video : Video P.
Variable settings : VideoSettings.
Variable totalFrames : Z.
Variable frameInterval : Time P.
Variable originalFilename : string.


Lemma weight_insert (ls : list (Loop P)) w l :
  sum_list (loop_weight <$> <[w := l]> ls) + loop_weight (default l (ls !! w))
  = sum_list (loop_weight <$> ls) + loop_weight l.
Proof.
  revert w. induction ls as [|a ls IH]; intros [|w]; cbn; try lia.
  rewrite <- !Nat.add_assoc. f_equal. apply IH.
Qed.

Lemma settle_pending res (s : State P) :
  pending_work (settle P res s) = pending_work s.
Proof. reflexivity. Qed.

Lemma reject_all_pending e (s : State P) :
  pending_work (reject_all P e s) = pending_work s.
Proof. unfold reject_all. by destruct (outcome s). Qed.

Lemma resolve_all_pending (s : State P) :
  pending_work (resolve_all P originalFilename s) = pending_work s.
Proof.
  unfold resolve_all. destruct (outcome s); [done|].
  destruct (all_returned P (loops s)); [|done].
  by destruct (compressFrames P (frames s)).
Qed.

Lemma set_loop_pending w l (s : State P) :
  pending_work (set_loop P w l s) + loop_weight (default l (loops s !! w))
  = pending_work s + loop_weight l.
Proof.
  unfold pending_work, set_loop; cbn [frameQueue loops seeking].
  pose proof (weight_insert (loops s) w l). lia.
Qed.

Lemma loop_head_pending w (s : State P) :
  pending_work (loop_head P originalFilename w s)
  + loop_weight (default Returned (loops s !! w))
  <= pending_work s.
Proof.
  unfold loop_head. destruct (frameQueue s) as [|t rest] eqn:Eq.
  - rewrite resolve_all_pending.
    pose proof (set_loop_pending w Returned s). simpl in *. lia.
  - unfold pending_work; cbn [frameQueue loops seeking]. rewrite Eq.
    pose proof (weight_insert (loops s) w (AwaitSeeked t)).
    destruct (loops s !! w) as [l|]; simpl in *; destruct (seeking s); lia.
Qed.

Lemma log_pending es (s : State P) :
  pending_work (log P es s) = pending_work s.
Proof. reflexivity. Qed.

Lemma after_seeked_pending w (s : State P) :
  pending_work (after_seeked P video settings w s) <= pending_work s.
Proof.
  unfold after_seeked.
  destruct (loops s !! w) as [[]|] eqn:E; try lia.
  destruct (canvas_context P).
  - destruct (target_size P video settings) as [tw th].
    rewrite log_pending.
    match goal with |- context [set_loop P w ?l s] =>
      pose proof (set_loop_pending w l s) as H end.
    rewrite E in H. simpl in H. lia.
  - rewrite reject_all_pending.
    match goal with |- context [set_loop P w ?l s] =>
      pose proof (set_loop_pending w l s) as H end.
    rewrite E in H. simpl in H. lia.
Qed.

Lemma foldl_after_seeked_pending ws (s : State P) :
  pending_work (foldl (fun s w => after_seeked P video settings w s) s ws)
  <= pending_work s.
Proof.
  revert s. induction ws as [|w ws IH]; intros s; simpl; [lia|].
  etrans; [apply IH|apply after_seeked_pending].
Qed.

Lemma after_message_pending w (s : State P) :
  awaits_worker P (loops s !! w) = true ->
  pending_work
    (after_message P video settings totalFrames originalFilename w s)
  < pending_work s.
Proof.
  unfold after_message.
  destruct (loops s !! w) as [[]|] eqn:E; try discriminate. intros _.
  destruct (processFrameInWorker P imageData settings frameNumber).
  - match goal with |- context [loop_head P originalFilename w ?s0] =>
      pose proof (loop_head_pending w s0) as H;
      change (loops s0) with (loops s) in H;
      change (pending_work s0) with (pending_work s) in H
    end.
    rewrite E in H. simpl in H. lia.
  - rewrite reject_all_pending.
    match goal with |- context [set_loop P w ?l s] =>
      pose proof (set_loop_pending w l s) as H end.
    rewrite E in H. simpl in H. lia.
Qed.

Lemma step_pending ev (s s' : State P) :
  step P video settings totalFrames originalFilename ev s = Some s' ->
  pending_work s' < pending_work s.
Proof.
  unfold step. destruct (enabled P ev s) eqn:En; [|discriminate].
  intros [= <-]. destruct ev as [|w]; simpl in En.
  - unfold dispatch_seeked.
    eapply Nat.le_lt_trans; [apply foldl_after_seeked_pending|].
    unfold pending_work; cbn [frameQueue loops seeking]. rewrite En. lia.
  - apply andb_true_iff in En as [_ En]. by apply after_message_pending.
Qed.

Lemma run_pending evs (s s' : State P) :
  run P video settings totalFrames originalFilename evs s = Some s' ->
  length evs + pending_work s' <= pending_work s.
Proof.
  revert s. induction evs as [|ev evs IH]; intros s; simpl.
  - intros [= <-]. lia.
  - destruct (step P video settings totalFrames originalFilename ev s)
      as [s1|] eqn:E; [|discriminate].
    intros H%IH. apply step_pending in E. lia.
Qed.

Lemma foldl_loop_head_pending ws (s : State P) :
  pending_work (foldl (fun s w => loop_head P originalFilename w s) s ws)
  <= pending_work s.
Proof.
  revert s. induction ws as [|w ws IH]; intros s; simpl; [lia|].
  etrans; [apply IH|]. pose proof (loop_head_pending w s). lia.
Qed.

Lemma start_pending workers :
  pending_work
    (start P video totalFrames frameInterval originalFilename workers)
  <= 3 * length (build_queue P video totalFrames frameInterval).
Proof.
  unfold start. rewrite resolve_all_pending.
  etrans; [apply foldl_loop_head_pending|].
  unfold pending_work; cbn [frameQueue loops seeking].
  assert (sum_list (loop_weight <$> replicate workers (@NotStarted P)) = 0)
    as ->;
    [|lia].
  induction workers; simpl; auto.
Qed.

(** *** The queue *)

Lemma fill_queue_spec fuel q t :
  (Z.of_nat (length q) <= Z.max 0 totalFrames)%Z ->
  Forall (fun x => t_lt P x (duration video) = true) q ->
  (Z.max 0 totalFrames - Z.of_nat (length q) < Z.of_nat fuel)%Z ->
  exists q',
    fill_queue P video totalFrames frameInterval fuel q t = Some q' /\
    (Z.of_nat (length q') <= Z.max 0 totalFrames)%Z /\
    Forall (fun x => t_lt P x (duration video) = true) q'.
Proof.
  revert q t. induction fuel as [|fuel IH]; intros q t Hlen Hall Hfuel; [lia|].
  cbn [fill_queue].
  destruct (Z.ltb_spec (Z.of_nat (length q)) totalFrames) as [Hlt|Hge];
    cbn [andb]; [|eauto].
  destruct (t_lt P t (duration video)) eqn:Ht; [|eauto].
  apply IH.
  - rewrite length_app. simpl. lia.
  - apply Forall_app. split; [done|]. by constructor.
  - rewrite length_app. simpl. lia.
Qed.

Lemma build_queue_spec :
  fill_queue P video totalFrames frameInterval (S (Z.to_nat totalFrames)) []
    (t_zero P)
  = Some (build_queue P video totalFrames frameInterval) /\
  (Z.of_nat (length (build_queue P video totalFrames frameInterval))
   <= Z.max 0 totalFrames)%Z /\
  Forall (fun x => t_lt P x (duration video) = true)
    (build_queue P video totalFrames frameInterval).
Proof.
  destruct (fill_queue_spec (S (Z.to_nat totalFrames)) [] (t_zero P))
    as (q & Hq & Hlen & Hall); [simpl; lia|constructor|simpl length; lia|].
  unfold build_queue. rewrite Hq. auto.
Qed.

(** *** Every turn takes at most one time off the queue *)

Lemma reject_all_queue e (s : State P) :
  frameQueue (reject_all P e s) = frameQueue s.
Proof. unfold reject_all. by destruct (outcome s). Qed.

Lemma resolve_all_queue (s : State P) :
  frameQueue (resolve_all P originalFilename s) = frameQueue s.
Proof.
  unfold resolve_all. destruct (outcome s); [done|].
  destruct (all_returned P (loops s)); [|done].
  by destruct (compressFrames P (frames s)).
Qed.

Lemma loop_head_queue w (s : State P) :
  frameQueue (loop_head P originalFilename w s) = tail (frameQueue s).
Proof.
  unfold loop_head. destruct (frameQueue s) eqn:E; [|done].
  by rewrite resolve_all_queue.
Qed.

Lemma after_seeked_queue w (s : State P) :
  frameQueue (after_seeked P video settings w s) = frameQueue s.
Proof.
  unfold after_seeked.
  destruct (loops s !! w) as [[]|]; try done.
  destruct (canvas_context P).
  - by destruct (target_size P video settings).
  - by rewrite reject_all_queue.
Qed.

Lemma foldl_after_seeked_keeps {A} (f : State P -> A) :
  (forall w s, f (after_seeked P video settings w s) = f s) ->
  forall ws s,
    f (foldl (fun s w => after_seeked P video settings w s) s ws) = f s.
Proof.
  intros Hf ws. induction ws as [|w ws IH]; intros s; simpl; [done|].
  by rewrite IH, Hf.
Qed.

Lemma dispatch_seeked_queue (s : State P) :
  frameQueue (dispatch_seeked P video settings s) = frameQueue s.
Proof.
  unfold dispatch_seeked.
  by rewrite (foldl_after_seeked_keeps frameQueue after_seeked_queue).
Qed.

Lemma after_message_queue w (s : State P) :
  frameQueue (after_message P video settings totalFrames originalFilename w s)
  = frameQueue s \/
  frameQueue (after_message P video settings totalFrames originalFilename w s)
  = tail (frameQueue s).
Proof.
  unfold after_message.
  destruct (loops s !! w) as [[]|]; auto.
  destruct (processFrameInWorker P imageData settings frameNumber).
  - right. by rewrite loop_head_queue.
  - left. by rewrite reject_all_queue.
Qed.

Lemma step_queue ev (s s' : State P) :
  step P video settings totalFrames originalFilename ev s = Some s' ->
  frameQueue s' = frameQueue s \/ frameQueue s' = tail (frameQueue s).
Proof.
  unfold step. destruct (enabled P ev s); [|discriminate].
  intros [= <-]. destruct ev.
  - left. apply dispatch_seeked_queue.
  - apply after_message_queue.
Qed.

(** *** Progress while nothing fails *)

Lemma all_returned_lookup (ls : list (Loop P)) :
  all_returned P ls = true <-> forall w l, ls !! w = Some l -> l = Returned.
Proof.
  unfold all_returned. rewrite forallb_forall. split.
  - intros H w l Hl. apply list_elem_of_lookup_2, list_elem_of_In, H in Hl.
    by destruct l.
  - intros H l [w Hl]%list_elem_of_In%list_elem_of_lookup_1.
    by rewrite (H w l Hl).
Qed.

Lemma healthy_running k (s : State P) w l :
  healthy k s -> loops s !! w = Some l -> l <> Returned -> outcome s = None.
Proof.
  intros H Hl Hne. destruct (outcome s) eqn:E; [|done].
  exfalso. apply Hne.
  eapply all_returned_lookup; [apply (h_done _ _ H); by rewrite E|done].
Qed.

Lemma settle_healthy k res (s : State P) :
  healthy k s -> all_returned P (loops s) = true ->
  healthy k (settle P res s).
Proof. intros [] Hall. by split. Qed.

Lemma resolve_all_healthy k (s : State P) :
  healthy k s -> healthy k (resolve_all P originalFilename s).
Proof.
  intros H. unfold resolve_all. destruct (outcome s); [done|].
  destruct (all_returned P (loops s)) eqn:E; [|done].
  destruct (compressFrames P (frames s)); by apply settle_healthy.
Qed.

Lemma resolve_all_loops (s : State P) :
  loops (resolve_all P originalFilename s) = loops s.
Proof.
  unfold resolve_all. destruct (outcome s); [done|].
  destruct (all_returned P (loops s)); [|done].
  by destruct (compressFrames P (frames s)).
Qed.

Lemma resolve_all_seeking (s : State P) :
  seeking (resolve_all P originalFilename s) = seeking s /\
  listeners (resolve_all P originalFilename s) = listeners s.
Proof.
  unfold resolve_all. destruct (outcome s); [done|].
  destruct (all_returned P (loops s)); [|done].
  by destruct (compressFrames P (frames s)).
Qed.

Lemma insert_lookup_cases (ls : list (Loop P)) w w' l l' :
  <[w := l]> ls !! w' = Some l' ->
  (w = w' /\ l' = l) \/ (w <> w' /\ ls !! w' = Some l').
Proof.
  destruct (decide (w = w')) as [<-|Hne].
  - intros [(_ & <- & _)|[? _]]%list_lookup_insert_Some; [by left|done].
  - rewrite list_lookup_insert_ne by done. auto.
Qed.

Lemma set_loop_healthy k k' w l (s : State P) :
  healthy k s -> outcome s = None ->
  l <> NotStarted -> (forall e, l <> Threw e) ->
  (k' = k \/ k' = S w /\ k = w) ->
  healthy k' (set_loop P w l s).
Proof.
  intros [] Hrun Hl1 Hl2 Hk. split; cbn; try done.
  - intros w' e [[_ Heq]|[_ Hw]]%insert_lookup_cases.
    + by apply (Hl2 e).
    + by apply (h_threw0 w' e).
  - rewrite Hrun. by intros [? ?].
  - intros w' [[_ ?]|[? ?%h_started0]]%insert_lookup_cases; [done|lia].
Qed.

Lemma loop_head_healthy k k' w (s : State P) :
  healthy k s -> outcome s = None ->
  (k' = k \/ k' = S w /\ k = w) ->
  healthy k' (loop_head P originalFilename w s).
Proof.
  intros H Hrun Hk. unfold loop_head.
  destruct (frameQueue s) as [|t rest].
  - apply resolve_all_healthy. by apply (set_loop_healthy k).
  - apply (set_loop_healthy k k' w (AwaitSeeked t)) in H; try done.
    destruct H. by split.
Qed.

Lemma loop_head_seek_pending w (s : State P) :
  seek_pending s -> seek_pending (loop_head P originalFilename w s).
Proof.
  intros H. unfold loop_head.
  destruct (frameQueue s) as [|ft rest].
  - intros w' t. rewrite resolve_all_loops.
    destruct (resolve_all_seeking (set_loop P w Returned s)) as [-> ->].
    cbn. intros [[_ ?]|[_ ?]]%insert_lookup_cases; [done|by eapply H].
  - intros w' t. cbn.
    intros [[<- _]|[_ Hw]]%insert_lookup_cases; [set_solver|].
    destruct (H _ _ Hw). set_solver.
Qed.

Hypothesis canvas_ok : canvas_context P = true.
Hypothesis worker_ok :
  forall imageData frameNumber, exists data,
    processFrameInWorker P imageData settings frameNumber = Resolved data.

Lemma after_seeked_healthy k w (s : State P) :
  healthy k s -> healthy k (after_seeked P video settings w s).
Proof.
  intros H. unfold after_seeked.
  destruct (loops s !! w) as [[]|] eqn:E; try done.
  rewrite canvas_ok. destruct (target_size P video settings) as [tw th].
  assert (outcome s = None) as Hrun by by eapply healthy_running.
  match goal with |- context [set_loop P w ?l s] =>
    destruct (set_loop_healthy k k w l s H Hrun) end;
    [done|done|by left|]. by split.
Qed.

Lemma after_seeked_listed w ws (s : State P) :
  waiting_listed (w :: ws) s ->
  waiting_listed ws (after_seeked P video settings w s).
Proof.
  intros H w' t. unfold after_seeked.
  destruct (loops s !! w) as [[]|] eqn:E;
    try (intros Hl; pose proof (H _ _ Hl) as [->|Hin]%elem_of_cons;
         [congruence|done]).
  rewrite canvas_ok. destruct (target_size P video settings) as [tw th].
  cbn. intros [[_ ?]|[Hne Hw]]%insert_lookup_cases; [done|].
  pose proof (H _ _ Hw) as [->|Hin]%elem_of_cons; [done|exact Hin].
Qed.

Lemma foldl_after_seeked_inv k ws (s : State P) :
  healthy k s -> waiting_listed ws s ->
  healthy k (foldl (fun s w => after_seeked P video settings w s) s ws) /\
  waiting_listed [] (foldl (fun s w => after_seeked P video settings w s) s ws).
Proof.
  revert s. induction ws as [|w ws IH]; intros s Hh Hw; simpl; [done|].
  apply IH; [by apply after_seeked_healthy|by apply after_seeked_listed].
Qed.

Lemma dispatch_seeked_inv k (s : State P) :
  healthy k s -> seek_pending s ->
  healthy k (dispatch_seeked P video settings s) /\
  seek_pending (dispatch_seeked P video settings s).
Proof.
  intros Hh Hs. unfold dispatch_seeked.
  match goal with |- context [foldl _ ?s0 _] =>
    destruct (foldl_after_seeked_inv k (listeners s) s0) as [H1 H2] end.
  - destruct Hh. by split.
  - intros w t Hl. exact (proj2 (Hs _ _ Hl)).
  - split; [done|]. intros w t Hl%H2. set_solver.
Qed.

Lemma after_message_inv k w (s : State P) :
  healthy k s -> seek_pending s ->
  awaits_worker P (loops s !! w) = true ->
  healthy k
    (after_message P video settings totalFrames originalFilename w s) /\
  seek_pending
    (after_message P video settings totalFrames originalFilename w s).
Proof.
  intros Hh Hs. unfold after_message.
  destruct (loops s !! w) as [[]|] eqn:E; try discriminate. intros _.
  destruct (worker_ok imageData frameNumber) as [data ->].
  assert (outcome s = None) as Hrun by by eapply healthy_running.
  split.
  - apply (loop_head_healthy k); [|done|by left]. destruct Hh. by split.
  - apply loop_head_seek_pending. exact Hs.
Qed.

Lemma step_inv k ev (s s' : State P) :
  step P video settings totalFrames originalFilename ev s = Some s' ->
  healthy k s -> seek_pending s ->
  healthy k s' /\ seek_pending s'.
Proof.
  unfold step. destruct (enabled P ev s) eqn:En; [|discriminate].
  intros [= <-] Hh Hs. destruct ev as [|w]; simpl in En.
  - by apply dispatch_seeked_inv.
  - apply andb_true_iff in En as [_ En]. by apply after_message_inv.
Qed.

Lemma run_inv k evs (s s' : State P) :
  run P video settings totalFrames originalFilename evs s = Some s' ->
  healthy k s -> seek_pending s ->
  healthy k s' /\ seek_pending s'.
Proof.
  revert s. induction evs as [|ev evs IH]; intros s; simpl.
  - by intros [= <-].
  - destruct (step P video settings totalFrames originalFilename ev s)
      as [s1|] eqn:E; [|discriminate].
    intros Hr Hh Hs. destruct (step_inv k ev s s1 E Hh Hs).
    by apply (IH s1).
Qed.

Lemma loop_head_loops w (s : State P) :
  length (loops (loop_head P originalFilename w s)) = length (loops s) /\
  forall w', w <> w' ->
    loops (loop_head P originalFilename w s) !! w' = loops s !! w'.
Proof.
  unfold loop_head. destruct (frameQueue s) as [|t rest].
  - rewrite resolve_all_loops. cbn. rewrite length_insert. split; [done|].
    intros w' Hne. by rewrite list_lookup_insert_ne.
  - cbn. rewrite length_insert. split; [done|].
    intros w' Hne. by rewrite list_lookup_insert_ne.
Qed.

Lemma foldl_loops_length ws (s : State P) :
  length (loops (foldl (fun s w => loop_head P originalFilename w s) s ws))
  = length (loops s).
Proof.
  revert s. induction ws as [|w ws IH]; intros s; simpl; [done|].
  rewrite IH. apply loop_head_loops.
Qed.

Lemma foldl_loop_head_inv n k (s : State P) :
  healthy k s -> seek_pending s ->
  (forall w, k <= w -> w < k + n -> loops s !! w = Some NotStarted) ->
  healthy (k + n)
    (foldl (fun s w => loop_head P originalFilename w s) s (seq k n)) /\
  seek_pending
    (foldl (fun s w => loop_head P originalFilename w s) s (seq k n)).
Proof.
  revert k s. induction n as [|n IH]; intros k s Hh Hs Hn; simpl.
  - by rewrite Nat.add_0_r.
  - replace (k + S n) with (S k + n) by lia.
    assert (outcome s = None) as Hrun.
    { eapply (healthy_running k s k); [done|apply Hn; lia|done]. }
    apply IH.
    + apply (loop_head_healthy k); [done|done|by right].
    + by apply loop_head_seek_pending.
    + intros w ? ?. destruct (loop_head_loops k s) as [_ ->]; [|lia].
      apply Hn; lia.
Qed.

Lemma healthy_weaken k k' (s : State P) :
  (forall w, loops s !! w = Some NotStarted -> k' <= w) ->
  healthy k s -> healthy k' s.
Proof. intros H []. by split. Qed.

Lemma start_inv workers k :
  healthy k
    (start P video totalFrames frameInterval originalFilename workers) /\
  seek_pending
    (start P video totalFrames frameInterval originalFilename workers).
Proof.
  unfold start.
  match goal with |- context [foldl _ ?s0 _] =>
    destruct (foldl_loop_head_inv workers 0 s0) as [Hh Hs];
    [| |intros w _ Hw; cbn; by apply lookup_replicate_2|] end.
  - split; cbn.
    + done.
    + intros w e [? _]%lookup_replicate_1. done.
    + by intros [? ?].
    + intros; lia.
  - intros w t [? _]%lookup_replicate_1. done.
  - split.
    + apply resolve_all_healthy. eapply healthy_weaken; [|exact Hh].
      intros w Hw. apply (h_started _ _ Hh) in Hw as Hge.
      apply lookup_lt_Some in Hw.
      rewrite (foldl_loops_length _ _) in Hw. cbn in Hw.
      rewrite length_replicate in Hw. simpl in Hge. lia.
    + intros w t. rewrite resolve_all_loops.
      match goal with |- context [resolve_all P originalFilename ?s1] =>
        destruct (resolve_all_seeking s1) as [-> ->] end.
      apply Hs.
Qed.

Lemma not_all_returned (ls : list (Loop P)) :
  all_returned P ls = false ->
  exists w l, ls !! w = Some l /\ l <> Returned.
Proof.
  induction ls as [|a ls IH]; [discriminate|]. simpl.
  destruct a; try (intros _; eexists 0, _; split; [reflexivity|discriminate]).
  intros (w & l & ? & ?)%IH. by exists (S w), l.
Qed.

Lemma an_event_is_due (s : State P) :
  (forall k, healthy k s) -> seek_pending s ->
  all_returned P (loops s) = false ->
  exists ev, enabled P ev s = true.
Proof.
  intros Hh Hs (w & l & Hl & Hne)%not_all_returned.
  destruct l as [|t|t img n| |e]; try done.
  - apply (h_started _ _ (Hh (S w))) in Hl. lia.
  - exists Seeked. by apply (Hs w t).
  - exists (Message w). simpl. rewrite Hl.
    rewrite (h_alive _ _ (Hh 0)); [done|].
    by eapply (healthy_running 0 s w).
  - by apply (h_threw _ _ (Hh 0)) in Hl.
Qed.

Lemma run_progress workers evs (s : State P) :
  run P video settings totalFrames originalFilename evs
    (start P video totalFrames frameInterval originalFilename workers)
  = Some s ->
  all_returned P (loops s) = true \/ exists ev, enabled P ev s = true.
Proof.
  intros Hr. destruct (all_returned P (loops s)) eqn:E; [by left|right].
  apply an_event_is_due; [|..|done].
  - intros k.
    exact (proj1 (run_inv k evs _ s Hr (proj1 (start_inv workers k))
                    (proj2 (start_inv workers k)))).
  - exact (proj2 (run_inv 0 evs _ s Hr (proj1 (start_inv workers 0))
                    (proj2 (start_inv workers 0)))).
Qed.
Lemma run_to_the_end n (s : State P) :
  pending_work s <= n -> (forall k, healthy k s) -> seek_pending s ->
  exists evs s',
    run P video settings totalFrames originalFilename evs s = Some s' /\
    all_returned P (loops s') = true.
Proof.
  revert s. induction n as [|n IH]; intros s Hn Hh Hs.
  all: destruct (all_returned P (loops s)) eqn:E; [by exists [], s|].
  all: destruct (an_event_is_due s Hh Hs E) as [ev Hev].
  all: destruct (step P video settings totalFrames originalFilename ev s)
         as [s1|] eqn:Hstep;
         [|unfold step in Hstep; by rewrite Hev in Hstep].
  all: pose proof (step_pending _ _ _ Hstep) as Hlt.
  - lia.
  - destruct (IH s1) as (evs & s' & Hr & Hall).
    + lia.
    + intros k. exact (proj1 (step_inv k _ _ _ Hstep (Hh k) Hs)).
    + exact (proj2 (step_inv 0 _ _ _ Hstep (Hh 0) Hs)).
    + exists (ev :: evs), s'. split; [|done]. cbn [run]. by rewrite Hstep.
Qed.

Lemma start_runs_to_the_end workers :
  exists evs s,
    run P video settings totalFrames originalFilename evs
      (start P video totalFrames frameInterval originalFilename workers)
    = Some s /\
    all_returned P (loops s) = true.
Proof.
  eapply run_to_the_end; [reflexivity| |].
  - intros k. apply start_inv.
  - apply (start_inv workers 0).
Qed.
End FrameLoopFacts.

Section TraceFacts.
Variable P : Platform.
Variable video : Video P.
Variable settings : VideoSettings.
Variable totalFrames : Z.
Variable frameInterval : Time P.
Variable originalFilename : string.

Lemma extends_refl draws (s : State P) : extends draws s s.
Proof. exists []. by rewrite app_nil_r. Qed.

Lemma extends_trans draws (s1 s2 s3 : State P) :
extends draws s1 s2 -> extends draws s2 s3 -> extends draws s1 s3.
Proof.
intros (n1 & H1 & A1 & Q1) (n2 & H2 & A2 & Q2). exists (n1 ++ n2)%list.
split; [by rewrite H2, H1, app_assoc|]. split; [by apply Forall_app|].
unfold shift_log in *. rewrite omap_app, fmap_app, <- app_assoc. congruence.
Qed.

Lemma extends_weaken (d1 d2 : nat -> Time P -> Prop) (s s' : State P) :
(forall w t, d1 w t -> d2 w t) -> extends d1 s s' -> extends d2 s s'.
Proof.
intros Hd (new & H1 & A & Q). exists new. split; [done|]. split; [|done].
eapply Forall_impl; [done|]. intros []; cbn; auto.
Qed.

Lemma settle_extends draws res (s : State P) : extends draws s (settle P res s).
Proof.
destruct res; eexists; (split; [reflexivity|]); split; try done;
  repeat constructor.
Qed.

Lemma reject_all_extends draws e (s : State P) :
extends draws s (reject_all P e s).
Proof.
unfold reject_all. destruct (outcome s);
  [apply extends_refl|apply settle_extends].
Qed.

Lemma resolve_all_extends draws (s : State P) :
extends draws s (resolve_all P originalFilename s).
Proof.
unfold resolve_all. destruct (outcome s); [apply extends_refl|].
destruct (all_returned P (loops s)); [|apply extends_refl].
destruct (compressFrames P (frames s)); apply settle_extends.
Qed.

Lemma set_loop_extends draws w l (s : State P) :
extends draws s (set_loop P w l s).
Proof. exists []. cbn. by rewrite app_nil_r. Qed.

Lemma loop_head_extends draws w (s : State P) :
extends draws s (loop_head P originalFilename w s).
Proof.
unfold loop_head. destruct (frameQueue s) as [|t rest] eqn:E.
- eapply extends_trans; [apply set_loop_extends|apply resolve_all_extends].
- eexists. cbn. split; [reflexivity|]. split; [repeat constructor|].
  by rewrite E.
Qed.

Lemma after_seeked_extends w (s : State P) :
extends (fun w' shown => w' = w /\ shown = currentTime s /\
                         exists t, loops s !! w = Some (AwaitSeeked t))
  s (after_seeked P video settings w s).
Proof.
unfold after_seeked. destruct (loops s !! w) as [[]|] eqn:E;
  try apply extends_refl.
destruct (canvas_context P).
- destruct (target_size P video settings) as [tw th].
  exists (size_reads P settings w ++
          [DrawImage w (currentTime s); PostFrame w (completedFrames s)])%list.
  split; [reflexivity|]. split.
  + apply Forall_app. split; [|repeat constructor; eauto].
    unfold size_reads. destruct (truthy (maxWidth settings));
      repeat constructor.
  + unfold size_reads. by destruct (truthy (maxWidth settings)).
- eapply extends_trans; [apply set_loop_extends|apply reject_all_extends].
Qed.

Lemma reject_all_loops e (s : State P) :
loops (reject_all P e s) = loops s /\
currentTime (reject_all P e s) = currentTime s.
Proof. unfold reject_all. by destruct (outcome s). Qed.

Lemma after_seeked_currentTime w (s : State P) :
currentTime (after_seeked P video settings w s) = currentTime s.
Proof.
unfold after_seeked. destruct (loops s !! w) as [[]|]; try done.
destruct (canvas_context P).
- by destruct (target_size P video settings).
- by destruct (reject_all_loops "Failed to get context"
                 (set_loop P w (Threw "Failed to get context") s)) as [_ ->].
Qed.

Lemma after_seeked_waiting w w' t (s : State P) :
loops (after_seeked P video settings w s) !! w' = Some (AwaitSeeked t) ->
loops s !! w' = Some (AwaitSeeked t).
Proof.
unfold after_seeked. destruct (loops s !! w) as [[]|] eqn:E; try done.
destruct (canvas_context P).
- destruct (target_size P video settings). cbn.
  by intros [[_ ?]|[_ ?]]%insert_lookup_cases.
- destruct (reject_all_loops "Failed to get context"
              (set_loop P w (Threw "Failed to get context") s)) as [-> _].
  cbn. by intros [[_ ?]|[_ ?]]%insert_lookup_cases.
Qed.

Lemma foldl_after_seeked_extends ws (s : State P) :
extends (fun w shown => w ∈ ws /\ shown = currentTime s /\
                        exists t, loops s !! w = Some (AwaitSeeked t))
  s (foldl (fun s w => after_seeked P video settings w s) s ws).
Proof.
revert s. induction ws as [|w ws IH]; intros s; [apply extends_refl|].
cbn [foldl]. eapply extends_trans.
- eapply extends_weaken; [|apply after_seeked_extends].
  intros w' shown (-> & ? & ?). split; [left|done].
- eapply extends_weaken; [|apply IH].
  intros w' shown (? & -> & t & Ht). split; [by right|].
  split; [apply after_seeked_currentTime|].
  exists t. by eapply after_seeked_waiting.
Qed.

Lemma dispatch_seeked_extends (s : State P) :
extends (fun w shown => w ∈ listeners s /\ shown = currentTime s /\
                        exists t, loops s !! w = Some (AwaitSeeked t))
  s (dispatch_seeked P video settings s).
Proof.
unfold dispatch_seeked.
match goal with |- extends ?D s (foldl _ ?s0 ?ws) =>
  apply (extends_trans D s s0);
  [|exact (foldl_after_seeked_extends ws s0)] end.
exists [SeekedEvent]. split; [reflexivity|]. split; [|done].
repeat constructor.
Qed.

Lemma after_message_extends w (s : State P) :
extends (fun _ _ => False) s
  (after_message P video settings totalFrames originalFilename w s).
Proof.
unfold after_message. destruct (loops s !! w) as [[]|];
  try apply extends_refl.
destruct (processFrameInWorker P imageData settings frameNumber).
- eapply extends_trans; [|apply loop_head_extends].
  eexists. cbn. split; [reflexivity|]. split; [|done]. repeat constructor.
- eapply extends_trans; [apply set_loop_extends|apply reject_all_extends].
Qed.

Lemma step_extends ev (s s' : State P) :
step P video settings totalFrames originalFilename ev s = Some s' ->
extends (fun w shown => ev = Seeked /\ w ∈ listeners s /\
                        shown = currentTime s /\
                        exists t, loops s !! w = Some (AwaitSeeked t))
  s s'.
Proof.
unfold step. destruct (enabled P ev s); [|discriminate].
intros [= <-]. destruct ev as [|w].
- eapply extends_weaken; [|apply dispatch_seeked_extends].
  intros w shown (? & ? & ?). auto.
- eapply extends_weaken; [|apply after_message_extends]. intros ? ? [].
Qed.

Lemma run_extends evs (s s' : State P) :
run P video settings totalFrames originalFilename evs s = Some s' ->
extends (fun _ _ => True) s s'.
Proof.
revert s. induction evs as [|ev evs IH]; intros s; simpl.
- intros [= <-]. apply extends_refl.
- destruct (step P video settings totalFrames originalFilename ev s)
    as [s1|] eqn:E; [|discriminate].
  intros H%IH. eapply extends_trans; [|done].
  eapply extends_weaken; [|by apply step_extends]. done.
Qed.

Lemma foldl_loop_head_extends ws (s : State P) :
extends (fun _ _ => False) s
  (foldl (fun s w => loop_head P originalFilename w s) s ws).
Proof.
revert s. induction ws as [|w ws IH]; intros s; [apply extends_refl|].
cbn [foldl]. eapply extends_trans; [apply loop_head_extends|apply IH].
Qed.

Lemma start_shifts workers :
((shift_log (trace (start P video totalFrames frameInterval
                      originalFilename workers))).*2 ++
 frameQueue (start P video totalFrames frameInterval originalFilename
               workers))%list
= build_queue P video totalFrames frameInterval.
Proof.
unfold start.
match goal with |- context [foldl _ ?s0 _] =>
  destruct (extends_trans (fun _ _ => False) _ _ _
              (foldl_loop_head_extends (seq 0 workers) s0)
              (resolve_all_extends _ _)) as (new & Ht & _ & Hq) end.
rewrite Ht. exact Hq.
Qed.

Lemma message_keeps_waiting w w' t (s : State P) :
loops s !! w = Some (AwaitSeeked t) ->
loops (after_message P video settings totalFrames originalFilename w' s) !! w
= Some (AwaitSeeked t).
Proof.
intros Hw. unfold after_message.
destruct (loops s !! w') as [[]|] eqn:E; try done.
assert (w' <> w) by congruence.
destruct (processFrameInWorker P imageData settings frameNumber).
- match goal with |- context [loop_head P originalFilename w' ?s0] =>
    destruct (loop_head_loops P originalFilename w' s0) as [_ ->] end; done.
- destruct (reject_all_loops error (set_loop P w' (Threw error) s)) as [-> _].
  cbn. by rewrite list_lookup_insert_ne.
Qed.
End TraceFacts.

Section AbortFacts.
Variable P : Platform.
Variable video : Video P.
Variable settings : VideoSettings.
Variable totalFrames : Z.
Variable originalFilename : string.

Lemma frozen_trans (s1 s2 s3 : State P) :
frozen s1 s2 -> frozen s2 s3 -> frozen s1 s3.
Proof. unfold frozen. intros (?&?&?&?&?&?&?&?) (?&?&?&?&?&?&?&?).
repeat split; congruence. Qed.

Lemma after_seeked_frozen w (s : State P) :
terminated s = true -> is_Some (outcome s) ->
frozen s (after_seeked P video settings w s).
Proof.
intros Ht [r Hr]. unfold after_seeked.
destruct (loops s !! w) as [[]|]; try by repeat split.
destruct (canvas_context P).
- destruct (target_size P video settings). by repeat split.
- unfold reject_all. cbn [outcome set_loop]. rewrite Hr. by repeat split.
Qed.

Lemma foldl_after_seeked_frozen ws (s : State P) :
terminated s = true -> is_Some (outcome s) ->
frozen s (foldl (fun s w => after_seeked P video settings w s) s ws).
Proof.
revert s. induction ws as [|w ws IH]; intros s Ht Ho; [by repeat split|].
cbn [foldl]. pose proof (after_seeked_frozen w s Ht Ho) as Hf.
eapply frozen_trans; [exact Hf|]. destruct Hf as (? & Ho' & _).
apply IH; [done|by rewrite Ho'].
Qed.

Lemma step_frozen ev (s s' : State P) :
terminated s = true -> is_Some (outcome s) ->
step P video settings totalFrames originalFilename ev s = Some s' ->
frozen s s'.
Proof.
intros Ht Ho. unfold step. destruct ev as [|w]; cbn [enabled].
- destruct (seeking s); [|discriminate]. intros [= <-].
  unfold dispatch_seeked.
  match goal with |- frozen s (foldl _ ?s0 ?ws) =>
    apply (frozen_trans s s0); [by repeat split|];
    by apply foldl_after_seeked_frozen end.
- by rewrite Ht.
Qed.

Lemma run_frozen evs (s s' : State P) :
terminated s = true -> is_Some (outcome s) ->
run P video settings totalFrames originalFilename evs s = Some s' ->
frozen s s'.
Proof.
revert s. induction evs as [|ev evs IH]; intros s Ht Ho; simpl.
- intros [= <-]. by repeat split.
- destruct (step P video settings totalFrames originalFilename ev s)
    as [s1|] eqn:E; [|discriminate].
  intros Hr. pose proof (step_frozen ev s s1 Ht Ho E) as Hf.
  eapply frozen_trans; [exact Hf|]. destruct Hf as (? & Ho' & _).
  apply IH; [done|by rewrite Ho'|done].
Qed.

(** C6. There is no retry: when the encode worker answers a frame with an
  error, [processFrameInWorker] rejects with that error and the extraction
  aborts (the user is alerted, the processing flag and the progress are
  reset, the workers are terminated); afterwards no time leaves the queue,
  no frame is stored and no worker answers any more. *)
Theorem worker_error_aborts (s : State P) w frameTime imageData frameNumber e :
outcome s = None ->
terminated s = false ->
loops s !! w = Some (AwaitWorker frameTime imageData frameNumber) ->
frame_worker_onmessage P imageData (format settings) (quality settings)
  frameNumber = WorkerError e ->
processFrameInWorker P imageData settings frameNumber = Rejected e /\
exists s',
  step P video settings totalFrames originalFilename (Message w) s = Some s' /\
  loops s' !! w = Some (Threw e) /\
  outcome s' = Some (Rejected e) /\
  ui_alerts s' =
    (ui_alerts s ++ ["An error occurred while processing frames"])%list /\
  ui_processing s' = false /\ ui_progress s' = 0%Z /\
  terminated s' = true /\
  frameQueue s' = frameQueue s /\ frames s' = frames s /\
  completedFrames s' = completedFrames s /\
  forall evs s'',
    run P video settings totalFrames originalFilename evs s' = Some s'' ->
    outcome s'' = Some (Rejected e) /\
    frameQueue s'' = frameQueue s /\ frames s'' = frames s /\
    completedFrames s'' = completedFrames s /\
    ui_alerts s'' = ui_alerts s' /\
    forall w', enabled P (Message w') s'' = false.
Proof.
intros Ho Ht Hl He.
assert (processFrameInWorker P imageData settings frameNumber = Rejected e)
  as Hp by (unfold processFrameInWorker; by rewrite He).
split; [done|].
eexists. split.
{ unfold step. cbn [enabled]. rewrite Ht, Hl. cbn. reflexivity. }
unfold after_message. rewrite Hl, Hp. unfold reject_all.
cbn [outcome set_loop]. rewrite Ho. cbn.
split; [apply list_lookup_insert_eq; by eapply lookup_lt_Some|].
do 8 (split; [reflexivity|]).
intros evs s'' Hr. apply run_frozen in Hr as (Ht' & ? & ? & ? & ? & ? & _);
  [|done|by eexists].
repeat split; try done. intros w'. cbn. by rewrite Ht'.
Qed.
End AbortFacts.

(** C4. The frame loop is bounded: the queue built before processing holds
    at most [totalFrames] times, all of them before the end of the video;
    a turn of the event loop takes at most one time off the queue, the head
    of a loop iteration exactly one; no run has more than three turns per
    queued time, and while nothing fails a run can go on until every loop
    has returned, as some run does. *)
Theorem frame_loop_bounded P (video : Video P) settings totalFrames
    frameInterval originalFilename workers :
  (0 < totalFrames)%Z ->
  fill_queue P video totalFrames frameInterval (S (Z.to_nat totalFrames)) []
    (t_zero P)
  = Some (build_queue P video totalFrames frameInterval) /\
  (Z.of_nat (length (build_queue P video totalFrames frameInterval))
   <= totalFrames)%Z /\
  Forall (fun t => t_lt P t (duration video) = true)
    (build_queue P video totalFrames frameInterval) /\
  (forall w (s : State P) t rest,
     frameQueue s = t :: rest ->
     frameQueue (loop_head P originalFilename w s) = rest) /\
  (forall ev (s s' : State P),
     step P video settings totalFrames originalFilename ev s = Some s' ->
     frameQueue s' = frameQueue s \/
     exists t, frameQueue s = t :: frameQueue s') /\
  (forall evs s,
     run P video settings totalFrames originalFilename evs
       (start P video totalFrames frameInterval originalFilename workers)
     = Some s ->
     length evs
     <= 3 * length (build_queue P video totalFrames frameInterval)) /\
  (canvas_context P = true ->
   (forall imageData frameNumber, exists data,
      processFrameInWorker P imageData settings frameNumber = Resolved data) ->
   (forall evs s,
      run P video settings totalFrames originalFilename evs
        (start P video totalFrames frameInterval originalFilename workers)
      = Some s ->
      all_returned P (loops s) = true \/ exists ev, enabled P ev s = true) /\
   exists evs s,
     run P video settings totalFrames originalFilename evs
       (start P video totalFrames frameInterval originalFilename workers)
     = Some s /\
     all_returned P (loops s) = true).
Proof.
  intros Hn.
  destruct (build_queue_spec P video totalFrames frameInterval)
    as (Hq & Hlen & Hall).
  split; [done|]. split; [lia|]. split; [done|]. split; [|split; [|split]].
  - intros w s t rest E. by rewrite loop_head_queue, E.
  - intros ev s s' [->|Hs]%step_queue; [by left|].
    destruct (frameQueue s) as [|t rest]; [by left|right].
    exists t. by rewrite Hs.
  - intros evs s Hr%run_pending.
    pose proof (start_pending P video totalFrames frameInterval
                  originalFilename workers). lia.
  - intros Hc Hw. split.
    + intros evs s Hr. by eapply run_progress.
    + by apply start_runs_to_the_end.
Qed.

Lemma frame_loop_bounded_witness :
  (0 < 4)%Z /\
  (Z.of_nat (length (build_queue sound_platform (sound_video 4) 4 1%Q))
   <= 4)%Z /\
  exists evs s,
    run sound_platform (sound_video 4) default_settings 4 "clip.mp4" evs
      (start sound_platform (sound_video 4) 4 1%Q "clip.mp4" 2)
    = Some s /\
    all_returned sound_platform (loops s) = true.
Proof.
  split; [lia|].
  destruct (frame_loop_bounded sound_platform (sound_video 4) default_settings
              4 1%Q "clip.mp4" 2) as (_ & Hlen & _ & _ & _ & _ & Hrun);
    [lia|].
  split; [exact Hlen|]. apply Hrun; [reflexivity|].
  intros imageData frameNumber. eexists. reflexivity.
Defined.

Example stalled_state_reached :
  sample_run (fun t => Qeq_bool t 0) 1 1 [Seeked] = Some stalled_state.
Proof. vm_compute. reflexivity. Qed.

Lemma worker_error_aborts_witness :
  outcome stalled_state = None /\
  terminated stalled_state = false /\
  (exists t img, loops stalled_state !! 0 = Some (AwaitWorker t img 0) /\
     frame_worker_onmessage faulty_platform img
       (format (count_settings 1)) (quality (count_settings 1)) 0
     = WorkerError "EncodingError") /\
  exists s',
    step faulty_platform (faulty_video 1) (count_settings 1) 1 "clip.mp4"
      (Message 0) stalled_state = Some s' /\
    outcome s' = Some (Rejected "EncodingError") /\
    ui_alerts s' = ["An error occurred while processing frames"] /\
    terminated s' = true.
Proof.
  split; [reflexivity|]. split; [reflexivity|].
  split; [eexists _, _; split; reflexivity|].
  destruct (worker_error_aborts faulty_platform (faulty_video 1)
              (count_settings 1) 1 "clip.mp4" stalled_state 0 _ _ 0
              "EncodingError" eq_refl eq_refl eq_refl eq_refl)
    as (_ & s' & Hs & _ & Ho & Ha & _ & _ & Ht & _).
  exists s'. split; [exact Hs|]. split; [exact Ho|]. split; [exact Ha|exact Ht].
Defined.

(** C3, as it is worded, fails: a frame is captured without the loop having
    read any seek indicator of the video element. *)
Lemma capture_without_polling :
  exists tr,
    trace <$> sample_run (fun _ => false) 1 1 [Seeked] = Some tr /\
    DrawImage 0 (second 0) ∈ tr /\
    ~ polled_before_drawing tr.
Proof.
  exists one_capture_trace. split; [vm_compute; reflexivity|].
  split; [unfold one_capture_trace; set_solver|]. intros H.
  destruct (H [Shift 0 (second 0); SetCurrentTime 0 (second 0);
               ListenSeeked 0; SeekedEvent;
               ReadVideo 0 "videoWidth"; ReadVideo 0 "videoHeight"]
              0 (second 0) [PostFrame 0 0]) as (property & Hp & Hin);
    [reflexivity|].
  repeat (apply elem_of_cons in Hin as [Hin|Hin];
          [try discriminate; injection Hin as ->; discriminate|]).
  by apply elem_of_nil in Hin.
Qed.

(** C3, amended. After taking a time off the queue a loop sets the current
    time of the video, adds a one-shot listener for [seeked] and waits; no
    other event resumes it; a frame is drawn only in the turn that delivers
    [seeked], by a loop whose listener was in place, at the position the
    element has at that moment; no turn reads a seek indicator. *)
Theorem capture_waits_for_seeked P (video : Video P) settings totalFrames
    originalFilename :
  (forall w (s : State P) t rest,
     frameQueue s = t :: rest -> w < length (loops s) ->
     trace (loop_head P originalFilename w s) =
       (trace s ++ [Shift w t; SetCurrentTime w t; ListenSeeked w])%list /\
     currentTime (loop_head P originalFilename w s) = t /\
     seeking (loop_head P originalFilename w s) = true /\
     listeners (loop_head P originalFilename w s) = (listeners s ++ [w])%list /\
     loops (loop_head P originalFilename w s) !! w = Some (AwaitSeeked t)) /\
  (forall ev (s s' : State P) w t,
     step P video settings totalFrames originalFilename ev s = Some s' ->
     loops s !! w = Some (AwaitSeeked t) -> ev <> Seeked ->
     loops s' !! w = Some (AwaitSeeked t)) /\
  (forall ev (s s' : State P),
     step P video settings totalFrames originalFilename ev s = Some s' ->
     exists new,
       trace s' = (trace s ++ new)%list /\
       (forall w property,
          ReadVideo w property ∈ new -> seek_indicator property = false) /\
       (forall w shown,
          DrawImage w shown ∈ new ->
          ev = Seeked /\ w ∈ listeners s /\ shown = currentTime s /\
          exists t, loops s !! w = Some (AwaitSeeked t))).
Proof.
  split; [|split].
  - intros w s t rest E Hw. unfold loop_head. rewrite E. cbn.
    repeat split. by apply list_lookup_insert_eq.
  - intros ev s s' w t Hs Hw Hev. unfold step in Hs.
    destruct (enabled P ev s); [|discriminate]. injection Hs as <-.
    destruct ev as [|w']; [done|]. by apply message_keeps_waiting.
  - intros ev s s' (new & Ht & Hall & _)%step_extends.
    exists new. split; [done|]. rewrite Forall_forall in Hall.
    split; intros w x Hin; exact (Hall _ Hin).
Qed.

(** C5. Every queued time is taken by exactly one loop, in every run. But
    the loops share the video element: with two loops and the queue [0; 1],
    both seek before the [seeked] event, both draw the frame at position 1,
    and the frame stored for time 0 is the one the video shows at time 1. *)
Theorem shared_video_race :
  (forall P (video : Video P) settings totalFrames frameInterval
          originalFilename workers evs s,
     run P video settings totalFrames originalFilename evs
       (start P video totalFrames frameInterval originalFilename workers)
     = Some s ->
     ((shift_log (trace s)).*2 ++ frameQueue s)%list
     = build_queue P video totalFrames frameInterval) /\
  exists data,
    trace <$> sample_run (fun _ => false) 2 2 [Seeked; Message 0; Message 1]
    = Some race_trace /\
    shift_log race_trace = [(0, second 0); (1, second 1)] /\
    StoreFrame 0 (second 0) "frame_00.webp"
      (drawn (sound_video 2) (second 1) 640 360) ∈ race_trace /\
    StoreFrame 1 (second 1) "frame_01.webp"
      (drawn (sound_video 2) (second 1) 640 360) ∈ race_trace /\
    drawn (sound_video 2) (second 1) 640 360
    <> drawn (sound_video 2) (second 0) 640 360 /\
    processFrameInWorker sound_platform
      (drawn (sound_video 2) (second 1) 640 360) (count_settings 2) 0
    = Resolved data /\
    (fun s => frames s !! "frame_00.webp")
      <$> sample_run (fun _ => false) 2 2 [Seeked; Message 0; Message 1]
    = Some (Some data) /\
    (fun s => frames s !! "frame_01.webp")
      <$> sample_run (fun _ => false) 2 2 [Seeked; Message 0; Message 1]
    = Some (Some data).
Proof.
  split.
  - intros P video settings totalFrames frameInterval originalFilename
      workers evs s (new & Ht & _ & Hq)%run_extends.
    rewrite Ht. unfold shift_log. rewrite omap_app, fmap_app, <- app_assoc.
    unfold shift_log in Hq. rewrite Hq. apply start_shifts.
  - eexists. split; [vm_compute; reflexivity|]. split; [reflexivity|].
    split; [unfold race_trace; set_solver|].
    split; [unfold race_trace; set_solver|].
    split; [discriminate|].
    split; [vm_compute; reflexivity|].
    split; vm_compute; reflexivity.
Qed.

(** C8. The archive is not a function of the video and the settings alone:
    on the same platform, for the same video, settings and number of
    loops, two orders of the same events give two different archives. *)
Theorem archive_depends_on_event_order :
  exists d1 d2,
    outcome <$> sample_run (fun _ => false) 4 2
      [Seeked; Message 0; Message 1; Seeked; Message 0; Message 1]
    = Some (Some (Resolved d1)) /\
    outcome <$> sample_run (fun _ => false) 4 2
      [Seeked; Message 0; Seeked; Message 1; Message 0; Seeked; Message 1]
    = Some (Some (Resolved d2)) /\
    d1 <> d2.
Proof.
  eexists _, _. split; [vm_compute; reflexivity|].
  split; [vm_compute; reflexivity|]. discriminate.
Qed.

Example generateFilename_default :
  generateFilename default_settings 7 250 "clip.mp4" = "frame_007.webp".
Proof. reflexivity. Qed.

Example generateFilename_original :
  generateFilename
    {| format := png; quality := 1; maxWidth := None; extractionMode := all;
       filenamePattern := "frame_%i"; useOriginalName := true;
       framesPerSecond := 60; totalFrames := 100 |}
    12 20000 "my.clip.mp4" = "my.clip_00012.png".
Proof. reflexivity. Qed.

Example strip_extension_blob_url :
  JS.strip_extension "blob:https://scenex.pics/0c5f" =
  "blob:https://scenex.pics/0c5f".
Proof. reflexivity. Qed.

(** * Further properties *)

Lemma zeros_read z s d :
  only_zeros z ->
  NilEmpty.uint_of_string s = Some d ->
  exists d', NilEmpty.uint_of_string (z +:+ s) = Some d' /\
             Nat.of_uint d' = Nat.of_uint d.
Proof.
  intros Hz Hs. induction z as [|c z IH]; [by exists d|].
  destruct IH as (d' & Hd' & Hn); [intros a Ha; apply Hz; by right|].
  rewrite string_app_cons. cbn [NilEmpty.uint_of_string]. rewrite Hd'.
  rewrite (Hz c) by by left. exists (Decimal.D0 d'). split; [reflexivity|].
  rewrite <- Hn. reflexivity.
Qed.

Lemma String_of_nat_read i :
  NilEmpty.uint_of_string (JS.String_of_nat i) = Some (Nat.to_uint i) /\
  JS.String_of_nat i <> "".
Proof.
  unfold JS.String_of_nat, NilZero.string_of_uint.
  assert (Nat.to_uint i <> Decimal.Nil) as Hnn.
  { rewrite <- (Unsigned.of_to i) at 1. rewrite Unsigned.to_of.
    unfold Decimal.unorm. by destruct (Decimal.nzhead (Nat.to_uint i)). }
  destruct (Nat.to_uint i) eqn:E; try done;
    (split; [rewrite <- E at 2; rewrite <- NilEmpty.usu; by rewrite E|done]).
Qed.

Lemma padded_number_reads_back i width :
  read_number (JS.padStart (JS.String_of_nat i) width "0") = Some i.
Proof.
  destruct (padStart_zero_padded (JS.String_of_nat i) width)
    as (zeros & Hz & -> & _).
  destruct (String_of_nat_read i) as [Hr Hne].
  destruct (zeros_read zeros _ _ Hz Hr) as (d' & Hd' & Hn).
  unfold read_number, NilZero.uint_of_string.
  destruct (zeros +:+ JS.String_of_nat i) eqn:E.
  - destruct zeros; [by rewrite string_app_nil_l in E|discriminate].
  - rewrite Hd'. cbn. by rewrite Hn, Unsigned.of_to.
Qed.

Lemma string_app_inv_tail a b c : a +:+ c = b +:+ c -> a = b.
Proof.
  revert b. induction a as [|x a IH]; intros [|y b] H.
  - done.
  - apply (f_equal String.length) in H.
    rewrite string_app_nil_l, string_app_cons in H. simpl in H.
    rewrite string_app_length in H. lia.
  - apply (f_equal String.length) in H.
    rewrite string_app_nil_l, string_app_cons in H. simpl in H.
    rewrite string_app_length in H. lia.
  - rewrite !string_app_cons in H. injection H as -> H. f_equal. by apply IH.
Qed.

Lemma string_app_inv_head a b c d :
  String.length a = String.length b -> a +:+ c = b +:+ d -> a = b /\ c = d.
Proof.
  revert b. induction a as [|x a IH]; intros [|y b] Hl H; try discriminate.
  - done.
  - rewrite !string_app_cons in H. injection H as -> H. simpl in Hl.
    destruct (IH b) as [-> ->]; [lia|done|done].
Qed.

Lemma concat_length sep p ps :
  String.length (String.concat sep (p :: ps))
  = String.length p
    + sum_list (String.length <$> ps) + length ps * String.length sep.
Proof.
  revert p. induction ps as [|q ps IH]; intros p; [simpl; lia|].
  rewrite concat_cons, !string_app_length, IH. rewrite fmap_cons.
  cbn [sum_list sum_list_with length Nat.mul]. unfold id. lia.
Qed.

Lemma concat_inj r r' p q ps :
  String.concat r (p :: q :: ps) = String.concat r' (p :: q :: ps) -> r = r'.
Proof.
  intros H. assert (String.length r = String.length r') as Hl.
  { apply (f_equal String.length) in H. rewrite !concat_length in H.
    simpl in H. nia. }
  rewrite !concat_cons in H. apply String.app_inj in H.
  by apply string_app_inv_head in H as [? _].
Qed.

Lemma replace_pct_i_cases pattern :
  (has_pct_i pattern /\
   forall r r', JS.replace_pct_i pattern r = JS.replace_pct_i pattern r' ->
                r = r') \/
  (~ has_pct_i pattern /\ forall r, JS.replace_pct_i pattern r = pattern).
Proof.
  destruct (replace_pct_i_pieces pattern) as (p & ps & Hall & Hs & Hr).
  destruct ps as [|q ps].
  - right. simpl in Hs. subst p. split; [by inversion Hall|].
    intros r. by rewrite Hr.
  - left. split.
    + rewrite Hs, concat_cons. by eexists _, _.
    + intros r r'. rewrite !Hr. apply concat_inj.
Qed.

Lemma generateFilename_eq_iff settings n originalName i j :
  generateFilename settings i n originalName
  = generateFilename settings j n originalName
  <-> i = j \/ ~ has_pct_i (filename_pattern settings originalName).
Proof.
  unfold generateFilename.
  destruct (replace_pct_i_cases (filename_pattern settings originalName))
    as [[Hh Hinj]|[Hn Hc]].
  - split; [|intros [->|?]; done]. intros H%string_app_inv_tail%Hinj. left.
    assert (Some i = Some j) as [=]; [|done].
    by rewrite <- (padded_number_reads_back i (paddingLength n)),
               <- (padded_number_reads_back j (paddingLength n)), H.
  - split; [by right|]. intros _. by rewrite !Hc.
Qed.

Lemma generateFilename_without_index settings n originalName i :
  ~ has_pct_i (filename_pattern settings originalName) ->
  useOriginalName settings = false /\
  generateFilename settings i n originalName
  = filenamePattern settings +:+ "." +:+ format_name (format settings).
Proof.
  intros Hn. unfold generateFilename.
  destruct (replace_pct_i_cases (filename_pattern settings originalName))
    as [[Hh _]|[_ Hc]]; [done|]. rewrite Hc. unfold filename_pattern in *.
  destruct (useOriginalName settings); [|done].
  destruct Hn. exists (JS.strip_extension originalName +:+ "_"), "".
  by rewrite string_app_assoc.
Qed.

Section Reachable.
Variable P : Platform.
Variable video : Video P.
Variable settings : VideoSettings.
Variable totalFrames : Z.
Variable frameInterval : Time P.
Variable originalFilename : string.
Variable workers : nat.

Lemma start_unfold :
  start P video totalFrames frameInterval originalFilename workers
  = resolve_all P originalFilename
      (foldl (fun s w => loop_head P originalFilename w s)
         (initial_state P video totalFrames frameInterval workers)
         (seq 0 workers)).
Proof. reflexivity. Qed.

Lemma dispatch_seeked_unfold (s : State P) :
  dispatch_seeked P video settings s
  = foldl (fun s w => after_seeked P video settings w s) (seeked_reset s)
      (listeners s).
Proof. reflexivity. Qed.

Lemma after_seeked_cases w (s : State P) :
  after_seeked P video settings w s = s \/
  (exists t, loops s !! w = Some (AwaitSeeked t) /\
             canvas_context P = true /\
             after_seeked P video settings w s
             = captured P video settings w t s) \/
  (exists t, loops s !! w = Some (AwaitSeeked t) /\
             canvas_context P = false /\
             after_seeked P video settings w s
             = reject_all P "Failed to get context"
                 (set_loop P w (Threw "Failed to get context") s)).
Proof.
  unfold after_seeked, captured.
  destruct (loops s !! w) as [[| t | | |]|]; auto.
  destruct (canvas_context P); [|by eauto 10].
  right; left. exists t. destruct (target_size P video settings). auto.
Qed.

Lemma after_message_cases w (s : State P) :
  awaits_worker P (loops s !! w) = true ->
  exists t img n,
    loops s !! w = Some (AwaitWorker t img n) /\
    ((exists e, processFrameInWorker P img settings n = Rejected e /\
                after_message P video settings totalFrames originalFilename w s
                = reject_all P e (set_loop P w (Threw e) s)) \/
     (exists data, processFrameInWorker P img settings n = Resolved data /\
                   after_message P video settings totalFrames originalFilename
                     w s
                   = loop_head P originalFilename w
                       (stored P video settings totalFrames w t img data s))).
Proof.
  unfold after_message. destruct (loops s !! w) as [[| | t img n | |]|];
    try discriminate. intros _. exists t, img, n. split; [done|].
  destruct (processFrameInWorker P img settings n); eauto.
Qed.

(** How an invariant of the runs is proved. *)
Lemma reachable_invariant (Inv : State P -> Prop) :
  Inv (initial_state P video totalFrames frameInterval workers) ->
  (forall w s, Inv s -> loops s !! w = Some NotStarted ->
               Inv (loop_head P originalFilename w s)) ->
  (forall s, Inv s -> Inv (resolve_all P originalFilename s)) ->
  (forall s, Inv s -> seeking s = true -> Inv (seeked_reset s)) ->
  (forall w t s, Inv s -> loops s !! w = Some (AwaitSeeked t) ->
                 canvas_context P = true ->
                 Inv (captured P video settings w t s)) ->
  (forall w t s, Inv s -> loops s !! w = Some (AwaitSeeked t) ->
                 canvas_context P = false ->
                 Inv (reject_all P "Failed to get context"
                        (set_loop P w (Threw "Failed to get context") s))) ->
  (forall w t img n e s,
     Inv s -> loops s !! w = Some (AwaitWorker t img n) ->
     terminated s = false ->
     processFrameInWorker P img settings n = Rejected e ->
     Inv (reject_all P e (set_loop P w (Threw e) s))) ->
  (forall w t img n data s,
     Inv s -> loops s !! w = Some (AwaitWorker t img n) ->
     terminated s = false ->
     processFrameInWorker P img settings n = Resolved data ->
     Inv (loop_head P originalFilename w
            (stored P video settings totalFrames w t img data s))) ->
  forall s,
    reachable P video settings totalFrames frameInterval originalFilename
      workers s ->
    Inv s.
Proof.
  intros H0 Hstart Hres Hreset Hcap Hctx Herr Hdata s [evs Hr].
  assert (Inv (start P video totalFrames frameInterval originalFilename
                 workers)) as Hs.
  { rewrite start_unfold. apply Hres.
    assert (forall n k (s0 : State P),
              Inv s0 ->
              (forall w, k <= w -> w < k + n ->
                         loops s0 !! w = Some NotStarted) ->
              Inv (foldl (fun s w => loop_head P originalFilename w s) s0
                     (seq k n))) as Hfold.
    { induction n as [|n IH]; intros k s0 Hi Hn; [done|]. cbn [seq foldl].
      apply IH; [apply Hstart; [done|apply Hn; lia]|].
      intros w ? ?.
      rewrite (proj2 (loop_head_loops P originalFilename k s0) w) by lia.
      apply Hn; lia. }
    apply Hfold; [done|]. intros w _ Hw. by apply lookup_replicate_2. }
  revert Hr Hs.
  generalize (start P video totalFrames frameInterval originalFilename workers).
  induction evs as [|ev evs IH]; intros s0; cbn [run]; [by intros [= <-]|].
  unfold step. destruct (enabled P ev s0) eqn:En; [|discriminate].
  intros Hr Hi. apply (IH _ Hr). destruct ev as [|w]; cbn [enabled] in En.
  - rewrite dispatch_seeked_unfold.
    assert (forall ws (s1 : State P), Inv s1 ->
              Inv (foldl (fun s w => after_seeked P video settings w s) s1 ws))
      as Hfold; [|by apply Hfold, Hreset].
    induction ws as [|w ws IHws]; intros s1 Hi1; [done|]. cbn [foldl].
    apply IHws.
    destruct (after_seeked_cases w s1)
      as [->|[(t & Hl & Hc & ->)|(t & Hl & Hc & ->)]]; eauto.
  - apply andb_true_iff in En as [Ht%negb_true_iff Hw].
    destruct (after_message_cases w s0 Hw)
      as (t & img & n & Hl & [(e & Hp & ->)|(data & Hp & ->)]); eauto.
Qed.

(** *** The outcome *)

Lemma settle_view res (s : State P) :
  outcome s = None -> settled_view s -> settled_view (settle P res s).
Proof.
  unfold settled_view. intros ->. intros (_ & Ha & _). cbn.
  rewrite Ha. by destruct res.
Qed.

Lemma reject_all_view e (s : State P) :
  settled_view s -> settled_view (reject_all P e s).
Proof.
  unfold reject_all. destruct (outcome s) eqn:E; [done|]. by apply settle_view.
Qed.

Lemma resolve_all_view (s : State P) :
  settled_view s -> settled_view (resolve_all P originalFilename s).
Proof.
  unfold resolve_all. destruct (outcome s) eqn:E; [done|].
  destruct (all_returned P (loops s)); [|done].
  destruct (compressFrames P (frames s)); by apply settle_view.
Qed.

Lemma set_loop_view w l (s : State P) :
  settled_view s -> settled_view (set_loop P w l s).
Proof. done. Qed.

Lemma loop_head_view w (s : State P) :
  settled_view s -> settled_view (loop_head P originalFilename w s).
Proof.
  intros H. unfold loop_head. destruct (frameQueue s); [|done].
  by apply resolve_all_view, set_loop_view.
Qed.

Lemma stored_view w t img data (s : State P) :
  terminated s = false -> settled_view s ->
  settled_view (stored P video settings totalFrames w t img data s).
Proof.
  unfold settled_view. cbn. destruct (outcome s); [|done].
  intros Ht (Ht' & _). congruence.
Qed.

Lemma reachable_settled_view (s : State P) :
  reachable P video settings totalFrames frameInterval originalFilename
    workers s ->
  settled_view s.
Proof.
  apply reachable_invariant.
  - done.
  - intros. by apply loop_head_view.
  - intros. by apply resolve_all_view.
  - done.
  - done.
  - intros. by apply reject_all_view, set_loop_view.
  - intros. by apply reject_all_view, set_loop_view.
  - intros. by apply loop_head_view, stored_view.
Qed.

Lemma all_returned_insert_false (ls : list (Loop P)) w l0 l :
  ls !! w = Some l0 -> l <> Returned ->
  all_returned P (<[w := l]> ls) = false.
Proof.
  intros Hw Hl. destruct (all_returned P (<[w := l]> ls)) eqn:E; [|done].
  destruct Hl. eapply all_returned_lookup; [exact E|].
  apply list_lookup_insert_eq. by eapply lookup_lt_Some.
Qed.

Lemma threw_stays (ls : list (Loop P)) w l0 l :
  ls !! w = Some l0 -> (forall e, l0 <> Threw e) ->
  (exists w' e', ls !! w' = Some (Threw e')) ->
  exists w' e', <[w := l]> ls !! w' = Some (Threw e').
Proof.
  intros Hw Hl0 (w' & e' & Hw'). exists w', e'.
  rewrite list_lookup_insert_ne; [done|]. intros ->.
  rewrite Hw in Hw'. injection Hw' as ->. by eapply Hl0.
Qed.

Lemma outcome_view_busy w l0 l (s s' : State P) :
  outcome_view P originalFilename s ->
  loops s !! w = Some l0 -> l0 <> Returned -> (forall e, l0 <> Threw e) ->
  l <> Returned ->
  loops s' = <[w := l]> (loops s) -> outcome s' = outcome s ->
  frames s' = frames s ->
  outcome_view P originalFilename s'.
Proof.
  unfold outcome_view. intros Hv Hw Hl0 Hl0' Hl -> -> ->.
  destruct (outcome s) as [[d|e]|].
  - destruct Hv as [Hall _]. destruct Hl0.
    by eapply all_returned_lookup.
  - destruct Hv as [Ht|[Hall _]]; [left; by eapply threw_stays|].
    destruct Hl0. by eapply all_returned_lookup.
  - by eapply all_returned_insert_false.
Qed.

Lemma outcome_view_throw w l0 e (s : State P) :
  outcome_view P originalFilename s ->
  loops s !! w = Some l0 -> l0 <> Returned ->
  outcome_view P originalFilename (reject_all P e (set_loop P w (Threw e) s)).
Proof.
  unfold outcome_view, reject_all. cbn [outcome set_loop].
  intros Hv Hw Hl0.
  assert (<[w := Threw e]> (loops s) !! w = Some (Threw e)) as Ht
    by (apply list_lookup_insert_eq; by eapply lookup_lt_Some).
  destruct (outcome s) as [[d|e0]|] eqn:E; cbn; rewrite ?E; eauto.
  destruct Hv as [Hall _]. destruct Hl0. by eapply all_returned_lookup.
Qed.

Lemma resolve_all_eq (s : State P) :
  resolve_all P originalFilename s
  = match outcome s with
    | Some _ => s
    | None =>
        if all_returned P (loops s)
        then settle P (settled_result P originalFilename (frames s)) s
        else s
    end.
Proof.
  unfold resolve_all, settled_result. destruct (outcome s); [done|].
  destruct (all_returned P (loops s)); [|done].
  by destruct (compressFrames P (frames s)).
Qed.

Lemma outcome_view_resolve (s : State P) :
  (outcome s = None \/ outcome_view P originalFilename s) ->
  outcome_view P originalFilename (resolve_all P originalFilename s).
Proof.
  rewrite resolve_all_eq. unfold outcome_view.
  destruct (outcome s) as [r|] eqn:E.
  - intros [?|Hv]; [done|]. by rewrite E.
  - intros _. destruct (all_returned P (loops s)) eqn:Ea.
    + cbn. destruct (settled_result P originalFilename (frames s)) eqn:Er;
        eauto.
    + by rewrite E.
Qed.

Lemma outcome_view_return w l0 (s : State P) :
  outcome_view P originalFilename s ->
  loops s !! w = Some l0 -> l0 <> Returned -> (forall e, l0 <> Threw e) ->
  outcome_view P originalFilename
    (resolve_all P originalFilename (set_loop P w Returned s)).
Proof.
  intros Hv Hw Hl0 Hl0'. apply outcome_view_resolve.
  unfold outcome_view in *. cbn [outcome set_loop loops frames].
  destruct (outcome s) as [[d|e]|]; [|right|by left].
  - destruct Hv as [Hall _]. destruct Hl0. by eapply all_returned_lookup.
  - destruct Hv as [Ht|[Hall _]]; [left; by eapply threw_stays|].
    destruct Hl0. by eapply all_returned_lookup.
Qed.

Lemma outcome_view_loop_head w l0 (s : State P) :
  outcome_view P originalFilename s ->
  loops s !! w = Some l0 -> l0 <> Returned -> (forall e, l0 <> Threw e) ->
  outcome_view P originalFilename (loop_head P originalFilename w s).
Proof.
  intros Hv Hw Hl0 Hl0'. unfold loop_head.
  destruct (frameQueue s) as [|t rest].
  - by eapply outcome_view_return.
  - by eapply (outcome_view_busy w l0 (AwaitSeeked t) s).
Qed.

Hypothesis some_worker : 0 < workers.

Lemma reachable_outcome_view (s : State P) :
  reachable P video settings totalFrames frameInterval originalFilename
    workers s ->
  settled_view s /\ outcome_view P originalFilename s.
Proof.
  revert s.
  apply (reachable_invariant
           (fun s => settled_view s /\ outcome_view P originalFilename s)).
  - split; [done|]. unfold outcome_view. cbn.
    destruct workers; [lia|done].
  - intros w s0 [Hs Hv] Hw. split; [by apply loop_head_view|].
    by eapply outcome_view_loop_head.
  - intros s0 [Hs Hv]. split; [by apply resolve_all_view|].
    apply outcome_view_resolve. by right.
  - intros s0 [Hs Hv] _. done.
  - intros w t s0 [Hs Hv] Hw _. split; [done|].
    by eapply (outcome_view_busy w (AwaitSeeked t) (AwaitWorker t _ _) s0).
  - intros w t s0 [Hs Hv] Hw _.
    split; [by apply reject_all_view, set_loop_view|].
    by eapply outcome_view_throw.
  - intros w t img n e s0 [Hs Hv] Hw _ _.
    split; [by apply reject_all_view, set_loop_view|].
    by eapply outcome_view_throw.
  - intros w t img n data s0 [Hs Hv] Hw Ht _.
    split; [by apply loop_head_view, stored_view|].
    eapply outcome_view_loop_head; [|exact Hw|done..].
    unfold outcome_view, settled_view in *. cbn.
    destruct (outcome s0); [|done]. destruct Hs as [? _]. congruence.
Qed.
End Reachable.

Section Names.
Variable P : Platform.
Variable video : Video P.
Variable settings : VideoSettings.
Variable totalFrames : Z.
Variable frameInterval : Time P.
Variable originalFilename : string.
Variable workers : nat.

Lemma names_view_keep (s s' : State P) :
  store_names (trace s') = store_names (trace s) ->
  frames s' = frames s -> completedFrames s' = completedFrames s ->
  names_view P video settings totalFrames s ->
  names_view P video settings totalFrames s'.
Proof. unfold names_view. by intros -> -> ->. Qed.

Lemma store_names_app (tr new : list (Effect P)) :
  store_names (tr ++ new) = (store_names tr ++ store_names new)%list.
Proof. apply omap_app. Qed.

Lemma settle_names res (s : State P) :
  names_view P video settings totalFrames s ->
  names_view P video settings totalFrames (settle P res s).
Proof.
  apply names_view_keep; try done. unfold settle; cbn [trace].
  rewrite store_names_app. destruct res; cbn; by rewrite app_nil_r.
Qed.

Lemma reject_all_names e (s : State P) :
  names_view P video settings totalFrames s ->
  names_view P video settings totalFrames (reject_all P e s).
Proof.
  unfold reject_all. destruct (outcome s); [done|]. apply settle_names.
Qed.

Lemma resolve_all_names (s : State P) :
  names_view P video settings totalFrames s ->
  names_view P video settings totalFrames (resolve_all P originalFilename s).
Proof.
  rewrite resolve_all_eq. destruct (outcome s); [done|].
  destruct (all_returned P (loops s)); [|done]. apply settle_names.
Qed.

Lemma loop_head_names w (s : State P) :
  names_view P video settings totalFrames s ->
  names_view P video settings totalFrames (loop_head P originalFilename w s).
Proof.
  intros H. unfold loop_head. destruct (frameQueue s).
  - by apply resolve_all_names.
  - revert H. apply names_view_keep; try done. cbn [trace].
    rewrite store_names_app. cbn. by rewrite app_nil_r.
Qed.

Lemma captured_names w t (s : State P) :
  names_view P video settings totalFrames s ->
  names_view P video settings totalFrames (captured P video settings w t s).
Proof.
  apply names_view_keep; try done. unfold captured, log; cbn [trace set_loop].
  rewrite !store_names_app. unfold size_reads.
  destruct (truthy (maxWidth settings)); cbn; by rewrite app_nil_r.
Qed.

Lemma stored_names w t img data (s : State P) :
  names_view P video settings totalFrames s ->
  names_view P video settings totalFrames
    (stored P video settings totalFrames w t img data s).
Proof.
  unfold names_view, stored. cbn [trace frames completedFrames].
  intros [Hn Hd].
  rewrite store_names_app, seq_S, fmap_app, Hn. cbn. split; [done|].
  rewrite dom_insert_L, Hd, Hn, list_to_set_app_L. cbn.
  rewrite (right_id_L ∅ (∪)). apply (comm_L (∪)).
Qed.

Lemma reachable_names (s : State P) :
  reachable P video settings totalFrames frameInterval originalFilename
    workers s ->
  names_view P video settings totalFrames s.
Proof.
  revert s. apply reachable_invariant.
  - split; [done|]. cbn. by rewrite dom_empty_L.
  - intros. by apply loop_head_names.
  - intros. by apply resolve_all_names.
  - intros s0 H _. revert H. apply names_view_keep; try done.
    unfold seeked_reset; cbn [trace].
    rewrite store_names_app. cbn. by rewrite app_nil_r.
  - intros. by apply captured_names.
  - intros. by apply reject_all_names.
  - intros. by apply reject_all_names.
  - intros. by apply loop_head_names, stored_names.
Qed.
End Names.


Section Accounted.
Variable P : Platform.
Variable video : Video P.
Variable settings : VideoSettings.
Variable totalFrames : Z.
Variable frameInterval : Time P.
Variable originalFilename : string.
Variable workers : nat.

Lemma busy_insert (ls : list (Loop P)) w l0 l :
  ls !! w = Some l0 ->
  sum_list (busy <$> <[w := l]> ls) + busy l0
  = sum_list (busy <$> ls) + busy l.
Proof.
  revert w. induction ls as [|a ls IH]; intros [|w] Hw; try done.
  - injection Hw as ->. cbn. lia.
  - cbn. cbn in Hw. specialize (IH w Hw).
    rewrite <- !Nat.add_assoc. f_equal. exact IH.
Qed.

Lemma returned_insert (ls : list (Loop P)) w l :
  l <> Returned ->
  (exists w', <[w := l]> ls !! w' = Some Returned) ->
  exists w', ls !! w' = Some Returned.
Proof.
  intros Hl (w' & [[_ ?]|[_ ?]]%insert_lookup_cases); [done|eauto].
Qed.

(** The three counters of a state that differs from [s] as [settle] makes it
    differ. *)
Lemma accounted_settled (s s' : State P) :
  completedFrames s' = completedFrames s -> frameQueue s' = frameQueue s ->
  loops s' = loops s -> ui_progress s' = 0%Z ->
  accounted P video totalFrames frameInterval s ->
  accounted P video totalFrames frameInterval s'.
Proof. unfold accounted. intros -> -> -> ->. intros (? & ? & _). auto. Qed.

Lemma accounted_same (s s' : State P) :
  completedFrames s' = completedFrames s -> frameQueue s' = frameQueue s ->
  loops s' = loops s -> ui_progress s' = ui_progress s ->
  accounted P video totalFrames frameInterval s ->
  accounted P video totalFrames frameInterval s'.
Proof. unfold accounted. by intros -> -> -> ->. Qed.

Lemma resolve_all_accounted (s : State P) :
  accounted P video totalFrames frameInterval s ->
  accounted P video totalFrames frameInterval
    (resolve_all P originalFilename s).
Proof.
  rewrite resolve_all_eq. destruct (outcome s); [done|].
  destruct (all_returned P (loops s)); [|done]. by apply accounted_settled.
Qed.

Lemma reject_all_accounted e (s : State P) :
  accounted P video totalFrames frameInterval s ->
  accounted P video totalFrames frameInterval (reject_all P e s).
Proof.
  unfold reject_all. destruct (outcome s); [done|]. by apply accounted_settled.
Qed.

Lemma set_loop_accounted w l0 l (s : State P) :
  loops s !! w = Some l0 -> busy l = busy l0 -> l <> Returned ->
  accounted P video totalFrames frameInterval s ->
  accounted P video totalFrames frameInterval (set_loop P w l s).
Proof.
  unfold accounted. cbn. intros Hw Hb Hl (Hc & Hr & Hp).
  pose proof (busy_insert (loops s) w l0 l Hw). split; [lia|].
  split; [|done]. intros Hx. apply Hr. by eapply returned_insert.
Qed.

(** [loop_head] by a loop that leaves the state [l0]: a loop that was
    not yet started, or one whose frame has just been counted. *)
Lemma loop_head_accounted w l0 (s : State P) :
  loops s !! w = Some l0 ->
  completedFrames s + length (frameQueue s) + sum_list (busy <$> loops s)
  = length (build_queue P video totalFrames frameInterval) + busy l0 ->
  ((exists w, loops s !! w = Some Returned) -> frameQueue s = []) ->
  (ui_progress s = 0%Z \/
   exists k, k <= completedFrames s /\
             ui_progress s = progress_percent totalFrames k) ->
  accounted P video totalFrames frameInterval
    (loop_head P originalFilename w s).
Proof.
  intros Hw Hc Hr Hp. unfold loop_head.
  destruct (frameQueue s) as [|t rest] eqn:Eq.
  - apply resolve_all_accounted. unfold accounted. cbn. rewrite Eq.
    pose proof (busy_insert (loops s) w l0 Returned Hw). cbn in *.
    split; [lia|]. done.
  - unfold accounted. cbn.
    pose proof (busy_insert (loops s) w l0 (AwaitSeeked t) Hw). cbn in *.
    split; [lia|]. split; [|done].
    intros Hx%returned_insert; [|done]. by apply Hr in Hx.
Qed.

Lemma reachable_accounted (s : State P) :
  reachable P video settings totalFrames frameInterval originalFilename
    workers s ->
  accounted P video totalFrames frameInterval s.
Proof.
  revert s. apply reachable_invariant.
  - unfold accounted. cbn. split; [|split; [|by left]].
    + assert (sum_list (busy <$> replicate workers (@NotStarted P)) = 0) as ->;
        [|lia]. induction workers; cbn; auto.
    + intros (w & [? _]%lookup_replicate_1). done.
  - intros w s0 (Hc & Hr & Hp) Hw.
    eapply loop_head_accounted; [exact Hw| |done..].
    cbn [busy]. by rewrite Nat.add_0_r.
  - intros. by apply resolve_all_accounted.
  - intros s0 H _. exact H.
  - intros w t s0 H Hw _.
    eapply accounted_same;
      [..|eapply (set_loop_accounted w (AwaitSeeked t) (AwaitWorker t _ _));
          [exact Hw|done|done|exact H]]; reflexivity.
  - intros w t s0 H Hw _. apply reject_all_accounted.
    by apply (set_loop_accounted w (AwaitSeeked t)).
  - intros w t img n e s0 H Hw _ _. apply reject_all_accounted.
    by apply (set_loop_accounted w (AwaitWorker t img n)).
  - intros w t img n data s0 (Hc & Hr & Hp) Hw _ _.
    eapply loop_head_accounted; [exact Hw| |done|].
    + unfold stored. cbn [busy completedFrames frameQueue loops]. lia.
    + right. exists (S (completedFrames s0)). done.
Qed.
End Accounted.

Section SingleLoop.
Variable P : Platform.
Variable video : Video P.
Variable settings : VideoSettings.
Variable totalFrames : Z.
Variable frameInterval : Time P.
Variable originalFilename : string.










End SingleLoop.

Section Queue.
Variable P : Platform.
Variable video : Video P.
Variable totalFrames : Z.
Variable frameInterval : Time P.

Lemma fill_queue_iterates fuel q t q' :
  fill_queue P video totalFrames frameInterval fuel q t = Some q' ->
  q = frame_time P frameInterval <$> seq 0 (length q) ->
  t = frame_time P frameInterval (length q) ->
  q' = frame_time P frameInterval <$> seq 0 (length q') /\
  ((Z.of_nat (length q') < totalFrames)%Z ->
   t_lt P (frame_time P frameInterval (length q')) (duration video) = false).
Proof.
  revert q t. induction fuel as [|fuel IH]; intros q t; [done|].
  cbn [fill_queue]. intros H Hq Ht.
  destruct (Z.ltb_spec (Z.of_nat (length q)) totalFrames) as [Hlt|Hge];
    cbn [andb] in H.
  - destruct (t_lt P t (duration video)) eqn:E.
    + apply IH in H; [done|..].
      * rewrite length_app. cbn [length]. rewrite Nat.add_1_r, seq_S, fmap_app.
        cbn. by rewrite <- Hq, <- Ht.
      * rewrite length_app. cbn [length]. rewrite Nat.add_1_r. cbn.
        by rewrite <- Ht.
    + injection H as <-. split; [done|]. intros _. by rewrite <- Ht.
  - injection H as <-. split; [done|]. lia.
Qed.

Lemma build_queue_iterates :
  build_queue P video totalFrames frameInterval
  = frame_time P frameInterval
      <$> seq 0 (length (build_queue P video totalFrames frameInterval)) /\
  ((Z.of_nat (length (build_queue P video totalFrames frameInterval))
    < totalFrames)%Z ->
   t_lt P
     (frame_time P frameInterval
        (length (build_queue P video totalFrames frameInterval)))
     (duration video) = false).
Proof.
  destruct (build_queue_spec P video totalFrames frameInterval) as (H & _ & _).
  by eapply fill_queue_iterates.
Qed.

Lemma build_queue_empty :
  build_queue P video totalFrames frameInterval = [] <->
  (totalFrames <= 0)%Z \/ t_lt P (t_zero P) (duration video) = false.
Proof.
  destruct build_queue_iterates as [Hq Hstop].
  destruct (build_queue_spec P video totalFrames frameInterval)
    as (_ & Hlen & Hall).
  destruct (build_queue P video totalFrames frameInterval) as [|t q] eqn:E.
  - split; [intros _|done]. cbn in Hstop.
    destruct (Z.ltb_spec 0 totalFrames); [right; by apply Hstop|by left].
  - split; [done|]. intros [Hn|Hd].
    + cbn [length] in Hlen. lia.
    + cbn in Hq. injection Hq as -> _.
      apply Forall_cons in Hall as [Ht _]. congruence.
Qed.
End Queue.

Section Edge.
Variable P : Platform.
Variable video : Video P.
Variable settings : VideoSettings.
Variable totalFrames : Z.
Variable frameInterval : Time P.
Variable originalFilename : string.
Variable workers : nat.

Lemma start_reachable :
  reachable P video settings totalFrames frameInterval originalFilename
    workers
    (start P video totalFrames frameInterval originalFilename workers).
Proof. by exists []. Qed.

Lemma busy_none (ls : list (Loop P)) :
  sum_list (busy <$> ls) = 0 ->
  forall w l, ls !! w = Some l -> l = NotStarted \/ l = Returned.
Proof.
  induction ls as [|a ls IH]; intros Hs [|w] l Hl; try done.
  - injection Hl as ->. cbn in Hs. destruct l; auto; cbn in Hs; lia.
  - cbn in Hs. apply (IH ltac:(lia) w l Hl).
Qed.

Lemma nothing_queued :
  build_queue P video totalFrames frameInterval = [] -> 0 < workers ->
  let s := start P video totalFrames frameInterval originalFilename workers in
  all_returned P (loops s) = true /\
  frames s = ∅ /\ completedFrames s = 0 /\
  outcome s = Some (settled_result P originalFilename ∅) /\
  forall ev, enabled P ev s = false.
Proof.
  intros Hq Hw s.
  destruct (reachable_accounted P video settings totalFrames frameInterval
              originalFilename workers s start_reachable) as (Hc & _ & _).
  rewrite Hq in Hc. cbn [length] in Hc.
  assert (all_returned P (loops s) = true) as Hall.
  { apply all_returned_lookup. intros w l Hl.
    destruct (busy_none (loops s) ltac:(lia) w l Hl) as [-> | ->]; [|done].
    pose proof (h_started _ _ (proj1 (start_inv P video totalFrames
      frameInterval originalFilename workers (S w))) w Hl). lia. }
  assert (frames s = ∅) as Hf.
  { destruct (reachable_names P video settings totalFrames frameInterval
                originalFilename workers s start_reachable) as [Hn Hd].
    apply dom_empty_inv_L. rewrite Hd, Hn.
    by replace (completedFrames s) with 0 by lia. }
  split; [done|]. split; [done|]. split; [lia|]. split.
  - destruct (reachable_outcome_view P video settings totalFrames frameInterval
                originalFilename workers Hw s start_reachable) as [_ Hv].
    unfold outcome_view in Hv.
    destruct (outcome s) as [[d|e]|]; rewrite ?Hf in Hv.
    + destruct Hv as [_ Hr]. by rewrite Hr.
    + destruct Hv as [(w & e' & Hl)|[_ Hr]].
      * by pose proof (proj1 (all_returned_lookup P (loops s)) Hall w _ Hl).
      * by rewrite Hr.
    + congruence.
  - pose proof (start_pending P video totalFrames frameInterval
                  originalFilename workers) as Hp.
    rewrite Hq in Hp. fold s in Hp. unfold pending_work in Hp.
    cbn [length] in Hp. intros [|w]; cbn [enabled].
    + destruct (seeking s); [lia|done].
    + destruct (loops s !! w) as [l|] eqn:El; [|by rewrite andb_false_r].
      rewrite (proj1 (all_returned_lookup P (loops s)) Hall w l El).
      by rewrite andb_false_r.
Qed.
End Edge.

Section CanvasFailure.
Variable P : Platform.
Variable video : Video P.
Variable settings : VideoSettings.
Hypothesis no_canvas : canvas_context P = false.

Lemma after_seeked_threw w w' e (s : State P) :
  loops s !! w = Some (Threw e) ->
  loops (after_seeked P video settings w' s) !! w = Some (Threw e).
Proof.
  intros Hw. destruct (after_seeked_cases P video settings w' s)
    as [->|[(t & Hl & Hc & ->)|(t & Hl & Hc & ->)]]; [done|congruence|].
  rewrite (proj1 (reject_all_loops P _ _)). cbn.
  rewrite list_lookup_insert_ne; [done|congruence].
Qed.

Lemma after_seeked_other w w' l (s : State P) :
  w <> w' -> loops s !! w = Some l ->
  loops (after_seeked P video settings w' s) !! w = Some l.
Proof.
  intros Hne Hw. destruct (after_seeked_cases P video settings w' s)
    as [->|[(t & Hl & Hc & ->)|(t & Hl & Hc & ->)]]; [done|congruence|].
  rewrite (proj1 (reject_all_loops P _ _)). cbn.
  by rewrite list_lookup_insert_ne.
Qed.

Lemma foldl_after_seeked_threw ws w e (s : State P) :
  loops s !! w = Some (Threw e) ->
  loops (foldl (fun s w => after_seeked P video settings w s) s ws) !! w
  = Some (Threw e).
Proof.
  revert s. induction ws as [|w' ws IH]; intros s Hw; [done|].
  cbn [foldl]. by apply IH, after_seeked_threw.
Qed.

Lemma foldl_after_seeked_throws ws w t (s : State P) :
  loops s !! w = Some (AwaitSeeked t) -> w ∈ ws ->
  loops (foldl (fun s w => after_seeked P video settings w s) s ws) !! w
  = Some (Threw "Failed to get context").
Proof.
  revert s. induction ws as [|w' ws IH]; intros s Hw Hin;
    [by apply elem_of_nil in Hin|]. cbn [foldl].
  destruct (decide (w = w')) as [<-|Hne].
  - apply foldl_after_seeked_threw.
    destruct (after_seeked_cases P video settings w s)
      as [Heq|[(t' & Hl & Hc & ->)|(t' & Hl & Hc & ->)]]; [|congruence|].
    + exfalso. revert Heq. unfold after_seeked. rewrite Hw, no_canvas.
      unfold reject_all. cbn [outcome set_loop].
      intros Heq. apply (f_equal (fun s => loops s !! w)) in Heq.
      destruct (outcome s); cbn in Heq;
        rewrite list_lookup_insert_eq in Heq by (by eapply lookup_lt_Some);
        congruence.
    + rewrite (proj1 (reject_all_loops P _ _)). cbn.
      apply list_lookup_insert_eq. by eapply lookup_lt_Some.
  - apply IH; [by apply after_seeked_other|].
    apply elem_of_cons in Hin as [?|?]; done.
Qed.

Lemma foldl_after_seeked_aborts ws w t (s : State P) :
  outcome s = None ->
  loops s !! w = Some (AwaitSeeked t) -> w ∈ ws ->
  let s' := foldl (fun s w => after_seeked P video settings w s) s ws in
  outcome s' = Some (Rejected "Failed to get context") /\
  terminated s' = true /\ frames s' = frames s /\
  completedFrames s' = completedFrames s /\
  frameQueue s' = frameQueue s /\
  ui_alerts s' =
    (ui_alerts s ++ ["An error occurred while processing frames"])%list.
Proof.
  revert s. induction ws as [|w' ws IH]; intros s Ho Hw Hin;
    [by apply elem_of_nil in Hin|]. cbn [foldl].
  destruct (after_seeked_cases P video settings w' s)
    as [Heq|[(t' & Hl & Hc & Heq)|(t' & Hl & Hc & Heq)]]; [|congruence|].
  - rewrite Heq. apply IH; [done..|].
    apply elem_of_cons in Hin as [->|?]; [|done]. exfalso.
    revert Heq. unfold after_seeked. rewrite Hw, no_canvas.
    unfold reject_all. cbn [outcome set_loop]. rewrite Ho.
    intros Heq. apply (f_equal outcome) in Heq. cbn in Heq. congruence.
  - rewrite Heq. unfold reject_all. cbn [outcome set_loop]. rewrite Ho.
    match goal with |- context [foldl _ ?s1 ws] =>
      destruct (foldl_after_seeked_frozen P video settings ws s1)
        as (? & -> & -> & -> & -> & -> & _) end; [done|by eexists|done].
Qed.
End CanvasFailure.

Section StoredNames.
Variable settings : VideoSettings.
Variable totalFrames : Z.
Variable originalName : string.

Lemma names_distinct c :
  has_pct_i (filename_pattern settings originalName) ->
  NoDup ((fun k => generateFilename settings k totalFrames originalName)
           <$> seq 0 c).
Proof.
  intros Hh. apply NoDup_fmap_2_strong; [|apply NoDup_seq].
  intros i j _ _ H. by apply generateFilename_eq_iff in H as [?|?].
Qed.

Lemma names_same c :
  ~ has_pct_i (filename_pattern settings originalName) ->
  list_to_set (C := gset string)
    ((fun k => generateFilename settings k totalFrames originalName)
       <$> seq 0 (S c))
  = {[ generateFilename settings 0 totalFrames originalName ]}.
Proof.
  intros Hn. apply set_eq. intros x.
  rewrite elem_of_list_to_set, list_elem_of_fmap, elem_of_singleton. split.
  - intros (k & -> & _). apply generateFilename_eq_iff. by right.
  - intros ->. exists 0. split; [done|]. apply elem_of_seq. lia.
Qed.

Lemma names_size c :
  let names : gset string :=
    list_to_set
      ((fun k => generateFilename settings k totalFrames originalName)
         <$> seq 0 c) in
  size names <= c /\
  (has_pct_i (filename_pattern settings originalName) -> size names = c) /\
  (~ has_pct_i (filename_pattern settings originalName) ->
   size names = Nat.min 1 c).
Proof.
  intros names.
  assert (has_pct_i (filename_pattern settings originalName) ->
          size names = c) as Hyes.
  { intros Hh. unfold names.
    rewrite size_list_to_set by by apply names_distinct.
    by rewrite length_fmap, length_seq. }
  assert (~ has_pct_i (filename_pattern settings originalName) ->
          size names = Nat.min 1 c) as Hno.
  { intros Hn. unfold names. destruct c as [|c]; [done|].
    rewrite names_same by done. by rewrite size_singleton. }
  split; [|done].
  destruct (replace_pct_i_cases (filename_pattern settings originalName))
    as [[Hh _]|[Hn _]]; [rewrite Hyes by done|rewrite Hno by done]; lia.
Qed.
End StoredNames.

Section Start.
Variable P : Platform.
Variable video : Video P.
Variable settings : VideoSettings.
Variable totalFrames : Z.
Variable frameInterval : Time P.
Variable originalFilename : string.
Variable workers : nat.

Lemma resolve_all_store (s : State P) :
  frames (resolve_all P originalFilename s) = frames s /\
  completedFrames (resolve_all P originalFilename s) = completedFrames s.
Proof. unfold resolve_all, settle. by repeat case_match. Qed.

Lemma loop_head_store w (s : State P) :
  frames (loop_head P originalFilename w s) = frames s /\
  completedFrames (loop_head P originalFilename w s) = completedFrames s.
Proof.
  unfold loop_head. destruct (frameQueue s); [|done].
  destruct (resolve_all_store (set_loop P w Returned s)) as [-> ->]. done.
Qed.

Lemma foldl_loop_head_store ws (s : State P) :
  frames (foldl (fun s w => loop_head P originalFilename w s) s ws)
  = frames s /\
  completedFrames (foldl (fun s w => loop_head P originalFilename w s) s ws)
  = completedFrames s.
Proof.
  revert s. induction ws as [|w ws IH]; intros s; [done|]. cbn [foldl].
  destruct (IH (loop_head P originalFilename w s)) as [-> ->].
  apply loop_head_store.
Qed.

Lemma start_store :
  frames (start P video totalFrames frameInterval originalFilename workers)
  = ∅ /\
  completedFrames
    (start P video totalFrames frameInterval originalFilename workers) = 0.
Proof.
  rewrite start_unfold.
  match goal with |- context [resolve_all P _ ?s] =>
    destruct (resolve_all_store s) as [-> ->] end.
  match goal with |- context [foldl _ ?s ?ws] =>
    destruct (foldl_loop_head_store ws s) as [-> ->] end.
  done.
Qed.

Lemma foldl_loop_head_other ws w (s : State P) :
  w ∉ ws ->
  loops (foldl (fun s w => loop_head P originalFilename w s) s ws) !! w
  = loops s !! w.
Proof.
  revert s. induction ws as [|w' ws IH]; intros s Hw; [done|]. cbn [foldl].
  apply not_elem_of_cons in Hw as [Hne Hw]. rewrite IH by done.
  by apply loop_head_loops.
Qed.

Lemma start_first_loop t q :
  build_queue P video totalFrames frameInterval = t :: q -> 0 < workers ->
  loops (start P video totalFrames frameInterval originalFilename workers)
    !! 0 = Some (AwaitSeeked t).
Proof.
  intros Hq Hw. rewrite start_unfold, resolve_all_loops.
  destruct workers as [|n]; [lia|]. cbn [seq foldl].
  rewrite foldl_loop_head_other by (rewrite elem_of_seq; lia).
  unfold loop_head. cbn [frameQueue initial_state]. rewrite Hq. done.
Qed.

Lemma start_waits t q :
  build_queue P video totalFrames frameInterval = t :: q -> 0 < workers ->
  let s := start P video totalFrames frameInterval originalFilename workers in
  outcome s = None /\ seeking s = true /\ 0 ∈ listeners s /\
  ui_alerts s = [] /\ terminated s = false.
Proof.
  intros Hq Hw s. pose proof (start_first_loop t q Hq Hw) as Hl. fold s in Hl.
  destruct (start_inv P video totalFrames frameInterval originalFilename
              workers 0) as [Hh Hs]. fold s in Hh, Hs.
  destruct (Hs 0 t Hl) as [Hk Hin].
  destruct (reachable_outcome_view P video settings totalFrames frameInterval
              originalFilename workers Hw s
              (start_reachable P video settings totalFrames frameInterval
                 originalFilename workers)) as [Hv Ho].
  assert (all_returned P (loops s) = false) as Hall.
  { destruct (all_returned P (loops s)) eqn:E; [|done].
    by pose proof (proj1 (all_returned_lookup P (loops s)) E 0 _ Hl). }
  assert (outcome s = None) as Hnone.
  { unfold outcome_view in Ho. destruct (outcome s) as [[d|e]|]; [| |done].
    - destruct Ho as [Ho _]. congruence.
    - destruct Ho as [(w & e' & Hl')|[Ho _]]; [|congruence].
      by destruct (h_threw _ _ Hh w e'). }
  unfold settled_view in Hv. rewrite Hnone in Hv.
  destruct Hv as (? & ? & _). done.
Qed.
End Start.

Section LoopCount.
Variable P : Platform.
Variable video : Video P.
Variable settings : VideoSettings.
Variable totalFrames : Z.
Variable frameInterval : Time P.
Variable originalFilename : string.
Variable workers : nat.

Lemma reject_all_length e (s : State P) :
  length (loops (reject_all P e s)) = length (loops s).
Proof. by rewrite (proj1 (reject_all_loops P e s)). Qed.

Lemma reachable_loops_length (s : State P) :
  reachable P video settings totalFrames frameInterval originalFilename
    workers s ->
  length (loops s) = workers.
Proof.
  revert s. apply reachable_invariant.
  - cbn. apply length_replicate.
  - intros w s H _. by rewrite (proj1 (loop_head_loops P originalFilename w s)).
  - intros s H. by rewrite resolve_all_loops.
  - done.
  - intros w t s H _ _. cbn. by rewrite length_insert.
  - intros w t s H _ _. rewrite reject_all_length. cbn.
    by rewrite length_insert.
  - intros w t img n e s H _ _. rewrite reject_all_length. cbn.
    by rewrite length_insert.
  - intros w t img n data s H _ _.
    by rewrite (proj1 (loop_head_loops P originalFilename w _)).
Qed.

Lemma all_returned_busy (ls : list (Loop P)) :
  all_returned P ls = true -> sum_list (busy <$> ls) = 0.
Proof.
  intros H. induction ls as [|l ls IH]; [done|].
  cbn in H. apply andb_true_iff in H as [Hl H]. cbn. rewrite IH by done.
  by destruct l.
Qed.

Lemma reachable_complete (s : State P) :
  reachable P video settings totalFrames frameInterval originalFilename
    workers s ->
  0 < workers -> all_returned P (loops s) = true ->
  frameQueue s = [] /\
  completedFrames s
  = length (build_queue P video totalFrames frameInterval).
Proof.
  intros Hr Hw Hall.
  destruct (reachable_accounted P video settings totalFrames frameInterval
              originalFilename workers s Hr) as (Hc & Hq & _).
  pose proof (reachable_loops_length s Hr) as Hlen.
  rewrite all_returned_busy in Hc by done.
  destruct (lookup_lt_is_Some_2 (loops s) 0 ltac:(lia)) as [l Hl].
  pose proof (proj1 (all_returned_lookup P (loops s)) Hall 0 l Hl) as ->.
  rewrite Hq in Hc by by exists 0. cbn [length] in Hc.
  split; [by apply Hq; exists 0|lia].
Qed.

End LoopCount.

Section AnyLoops.
Variable P : Platform.
Variable video : Video P.
Variable settings : VideoSettings.
Variable totalFrames : Z.
Variable frameInterval : Time P.
Variable originalFilename : string.
Variable workers : nat.








End AnyLoops.

Example half_done_reached :
  run sound_platform (sound_video 2) (count_settings 2) 2 "clip.mp4"
    [Seeked; Message 0]
    (start sound_platform (sound_video 2) 2 (second 1) "clip.mp4" 1)
  = Some half_done.
Proof. vm_compute. reflexivity. Qed.

Example all_done_reached :
  run sound_platform (sound_video 1) (count_settings 1) 1 "clip.mp4"
    [Seeked; Message 0]
    (start sound_platform (sound_video 1) 1 (second 1) "clip.mp4" 1)
  = Some all_done.
Proof. vm_compute. reflexivity. Qed.

Lemma half_done_reachable :
  reachable sound_platform (sound_video 2) (count_settings 2) 2 (second 1)
    "clip.mp4" 1 half_done.
Proof. exists [Seeked; Message 0]. exact half_done_reached. Qed.

Lemma all_done_reachable :
  reachable sound_platform (sound_video 1) (count_settings 1) 1 (second 1)
    "clip.mp4" 1 all_done.
Proof. exists [Seeked; Message 0]. exact all_done_reached. Qed.

(** X1. The index of a frame reads back from the digits [generateFilename]
    puts in its name: [padStart] adds zeros in front and nothing else,
    whatever the width, also when the index has more digits than the
    width. *)
Theorem padded_index_reads_back (i width : nat) :
  read_number (JS.padStart (JS.String_of_nat i) width "0") = Some i.
Proof. apply padded_number_reads_back. Qed.

(** X2. Two frames of an extraction get the same file name exactly when
    they have the same index or the pattern holds no [%i]. *)
Theorem frame_names_distinct settings n originalName i j :
  generateFilename settings i n originalName
  = generateFilename settings j n originalName
  <-> i = j \/ ~ has_pct_i (filename_pattern settings originalName).
Proof. apply generateFilename_eq_iff. Qed.

(** X3. With [useOriginalName] set, the names of the frames are pairwise
    distinct, whatever the name of the video and the pattern typed in. *)
Theorem original_name_frames_distinct settings n originalName :
  useOriginalName settings = true ->
  forall i j,
    generateFilename settings i n originalName
    = generateFilename settings j n originalName
    <-> i = j.
Proof.
  intros Hu i j. rewrite generateFilename_eq_iff.
  split; [intros [?|Hn]; [done|]|by left].
  destruct Hn. unfold filename_pattern. rewrite Hu.
  exists (JS.strip_extension originalName +:+ "_"), "".
  by rewrite string_app_assoc.
Qed.

Lemma original_name_frames_distinct_witness :
  useOriginalName named_settings = true /\
  (generateFilename named_settings 1 100 "clip.mp4"
   = generateFilename named_settings 2 100 "clip.mp4"
   <-> 1 = 2).
Proof.
  split; [reflexivity|].
  apply (original_name_frames_distinct named_settings 100 "clip.mp4").
  reflexivity.
Defined.

(** X4. The queue of [processFramesWithWorkers] holds the times 0,
    [frameInterval], [frameInterval + frameInterval], ... (repeated
    addition); it stops short of [totalFrames] entries only at the first
    such time that is not before the duration; and it is empty exactly
    when [totalFrames] is not positive or 0 is not before the duration. *)
Theorem frame_queue_times P (video : Video P) totalFrames frameInterval :
  let queue := build_queue P video totalFrames frameInterval in
  queue = frame_time P frameInterval <$> seq 0 (length queue) /\
  ((Z.of_nat (length queue) < totalFrames)%Z ->
   t_lt P (frame_time P frameInterval (length queue)) (duration video)
   = false) /\
  (queue = [] <->
   (totalFrames <= 0)%Z \/ t_lt P (t_zero P) (duration video) = false).
Proof.
  intros queue.
  destruct (build_queue_iterates P video totalFrames frameInterval)
    as [Hq Hstop].
  split; [exact Hq|]. split; [exact Hstop|]. apply build_queue_empty.
Qed.

(** X5. When the plan of [extractFrames] asks for no frame, or the video
    has no positive duration, nothing is captured: at once the frames
    record is empty, compression and download run on it, and no [seeked]
    event or worker message is awaited. *)
Theorem nothing_to_extract P (video : Video P) settings file
    hardwareConcurrency :
  ((extraction_plan P settings (duration video)).1 <= 0)%Z \/
  t_lt P (t_zero P) (duration video) = false ->
  exists s,
    extractFrames P (Some video) true settings (Some file)
      hardwareConcurrency = Some s /\
    frames s = ∅ /\ completedFrames s = 0 /\
    outcome s = Some (settled_result P (file_name file) ∅) /\
    forall ev, enabled P ev s = false.
Proof.
  intros H. unfold extractFrames.
  destruct (extraction_plan P settings (duration video)) as [n i].
  eexists. split; [reflexivity|].
  apply build_queue_empty with (frameInterval := i) in H.
  destruct (nothing_queued P video settings n i (file_name file)
              (worker_count hardwareConcurrency) H) as (_ & ? & ? & ? & ?);
    [|done].
  destruct hardwareConcurrency; cbn; lia.
Qed.

Lemma nothing_to_extract_witness :
  ((extraction_plan sound_platform (count_settings 0)
      (duration (sound_video 1))).1 <= 0)%Z /\
  exists s,
    extractFrames sound_platform (Some (sound_video 1)) true
      (count_settings 0) (Some clip) 2 = Some s /\
    frames s = ∅ /\ completedFrames s = 0 /\
    outcome s = Some (settled_result sound_platform (file_name clip) ∅) /\
    forall ev, enabled sound_platform ev s = false.
Proof.
  assert ((extraction_plan sound_platform (count_settings 0)
             (duration (sound_video 1))).1 <= 0)%Z as H
    by (vm_compute; discriminate).
  split; [exact H|].
  apply (nothing_to_extract sound_platform (sound_video 1) (count_settings 0)
           clip 2).
  left. exact H.
Defined.



(** X7. In every state of an extraction the frames were stored under the
    names of the indices 0, 1, ... in this order, one per completed frame,
    and the frames record holds exactly these names. With [%i] in the
    pattern it holds as many frames as were completed; without, at most
    one: every frame overwrites the one before. *)
Theorem stored_frame_names P (video : Video P) settings totalFrames
    frameInterval originalFilename workers (s : State P) :
  reachable P video settings totalFrames frameInterval originalFilename
    workers s ->
  store_names (trace s)
  = (fun k => generateFilename settings k totalFrames (src video))
      <$> seq 0 (completedFrames s) /\
  dom (frames s) = list_to_set (store_names (trace s)) /\
  size (frames s) <= completedFrames s /\
  (has_pct_i (filename_pattern settings (src video)) ->
   size (frames s) = completedFrames s) /\
  (~ has_pct_i (filename_pattern settings (src video)) ->
   size (frames s) = Nat.min 1 (completedFrames s)).
Proof.
  intros Hr.
  destruct (reachable_names P video settings totalFrames frameInterval
              originalFilename workers s Hr) as [Hn Hd].
  split; [exact Hn|]. split; [exact Hd|].
  rewrite <- size_dom, Hd, Hn. apply names_size.
Qed.

Lemma stored_frame_names_witness :
  reachable sound_platform (sound_video 2) (count_settings 2) 2 (second 1)
    "clip.mp4" 1 half_done /\
  store_names (trace half_done)
  = (fun k => generateFilename (count_settings 2) k 2 (src (sound_video 2)))
      <$> seq 0 (completedFrames half_done) /\
  dom (frames half_done) = list_to_set (store_names (trace half_done)) /\
  size (frames half_done) <= completedFrames half_done /\
  (has_pct_i (filename_pattern (count_settings 2) (src (sound_video 2))) ->
   size (frames half_done) = completedFrames half_done) /\
  (~ has_pct_i (filename_pattern (count_settings 2) (src (sound_video 2))) ->
   size (frames half_done) = Nat.min 1 (completedFrames half_done)).
Proof.
  split; [exact half_done_reachable|].
  apply (stored_frame_names sound_platform (sound_video 2) (count_settings 2)
           2 (second 1) "clip.mp4" 1 half_done half_done_reachable).
Defined.

(** X8. What the page shows follows the outcome of the extraction: while
    it is pending the processing flag is up and no alert has been raised;
    once it is settled the flag is down, the progress is back at 0, and
    there is exactly one alert if it failed and none if it succeeded.
    After that no event changes the outcome, the frames, the alerts or
    the progress. *)
Theorem page_follows_outcome P (video : Video P) settings totalFrames
    frameInterval originalFilename workers (s : State P) :
  reachable P video settings totalFrames frameInterval originalFilename
    workers s ->
  settled_view s /\
  forall evs s',
    is_Some (outcome s) ->
    run P video settings totalFrames originalFilename evs s = Some s' ->
    frozen s s'.
Proof.
  intros Hr.
  pose proof (reachable_settled_view P video settings totalFrames
                frameInterval originalFilename workers s Hr) as Hv.
  split; [exact Hv|]. intros evs s' Ho Hrun.
  apply (run_frozen P video settings totalFrames originalFilename evs);
    [|done..].
  unfold settled_view in Hv. destruct Ho as [r Ho]. rewrite Ho in Hv.
  by destruct Hv as [? _].
Qed.

Lemma page_follows_outcome_witness :
  reachable sound_platform (sound_video 1) (count_settings 1) 1 (second 1)
    "clip.mp4" 1 all_done /\
  settled_view all_done /\
  forall evs s',
    is_Some (outcome all_done) ->
    run sound_platform (sound_video 1) (count_settings 1) 1 "clip.mp4" evs
      all_done = Some s' ->
    frozen all_done s'.
Proof.
  split; [exact all_done_reachable|].
  apply (page_follows_outcome sound_platform (sound_video 1)
           (count_settings 1) 1 (second 1) "clip.mp4" 1 all_done
           all_done_reachable).
Defined.





(** X11. In a browser that gives no 2D canvas context, an extraction with
    a frame to capture fails at its first [seeked] event: the loop throws
    "Failed to get context", the extraction is rejected with it, one
    alert is raised and no frame is stored. *)
Theorem missing_canvas_context_aborts P (video : Video P) settings
    totalFrames frameInterval originalFilename workers :
  canvas_context P = false ->
  build_queue P video totalFrames frameInterval <> [] ->
  0 < workers ->
  exists s',
    step P video settings totalFrames originalFilename Seeked
      (start P video totalFrames frameInterval originalFilename workers)
    = Some s' /\
    outcome s' = Some (Rejected "Failed to get context") /\
    terminated s' = true /\ frames s' = ∅ /\ completedFrames s' = 0 /\
    ui_alerts s' = ["An error occurred while processing frames"].
Proof.
  intros Hc Hq Hw.
  destruct (build_queue P video totalFrames frameInterval) as [|t q] eqn:E;
    [done|].
  destruct (start_waits P video settings totalFrames frameInterval
              originalFilename workers t q E Hw) as (Ho & Hk & Hin & Ha & _).
  pose proof (start_first_loop P video totalFrames frameInterval
                originalFilename workers t q E Hw) as Hl.
  destruct (start_store P video totalFrames frameInterval originalFilename
              workers) as [Hf Hn].
  eexists. split.
  { unfold step. cbn [enabled]. rewrite Hk. reflexivity. }
  rewrite dispatch_seeked_unfold.
  match goal with |- context [foldl _ ?s1 ?ws] =>
    destruct (foldl_after_seeked_aborts P video settings Hc ws 0 t s1)
      as (-> & -> & -> & -> & _ & ->) end; try done.
  cbn. by rewrite Ha.
Qed.

Lemma missing_canvas_context_aborts_witness :
  canvas_context headless_platform = false /\
  build_queue headless_platform headless_video 1 1%Q <> [] /\
  0 < 2 /\
  exists s',
    step headless_platform headless_video (count_settings 1) 1 "clip.mp4"
      Seeked
      (start headless_platform headless_video 1 1%Q "clip.mp4" 2)
    = Some s' /\
    outcome s' = Some (Rejected "Failed to get context") /\
    terminated s' = true /\ frames s' = ∅ /\ completedFrames s' = 0 /\
    ui_alerts s' = ["An error occurred while processing frames"].
Proof.
  assert (build_queue headless_platform headless_video 1 1%Q <> []) as H
    by (vm_compute; discriminate).
  split; [reflexivity|]. split; [exact H|]. split; [lia|].
  apply (missing_canvas_context_aborts headless_platform headless_video
           (count_settings 1) 1 1%Q "clip.mp4" 2); [reflexivity|exact H|lia].
Defined.

(** X12. Whatever the user does on the page (drag, drop, choose a file,
    play or pause, close the preview, open the settings), the preview
    stays consistent with the selection: a selected file has a type that
    starts with "video/" and the preview shows its object URL; with no
    file selected the URL is empty and nothing is playing. *)
Theorem selection_stays_consistent createObjectURL (actions : list Action) :
  selection_consistent createObjectURL
    (foldl (fun st a => act createObjectURL a st) initial_app actions).
Proof.
  assert (forall st, selection_consistent createObjectURL st ->
            selection_consistent createObjectURL
              (foldl (fun st a => act createObjectURL a st) st actions))
    as H; [|by apply H].
  induction actions as [|a actions IH]; intros st Hst; [done|].
  cbn [foldl]. apply IH. clear IH.
  assert (forall file st0,
            videoFile st0 = videoFile st -> videoUrl st0 = videoUrl st ->
            isPlaying st0 = isPlaying st ->
            selection_consistent createObjectURL
              (handleFileSelect createObjectURL file st0)) as Hsel.
  { intros file st0 Hf Hu Hp. unfold selection_consistent, handleFileSelect.
    destruct file as [f|].
    - destruct (JS.startsWith (file_type f) "video/") eqn:E; cbn.
      + done.
      + unfold selection_consistent in Hst. by rewrite Hf, Hu, Hp.
    - cbn. unfold selection_consistent in Hst. by rewrite Hf, Hu, Hp. }
  unfold selection_consistent in Hst.
  destruct a as [| |files|files| | | |]; cbn [act]; try done.
  - by apply Hsel.
  - destruct files as [[|f fs]|]; cbn [handleFileInput]; [done| |done].
    by apply Hsel.
  - unfold togglePlayback, videoRef_current, selection_consistent.
    by destruct (videoFile st) eqn:E; cbn; rewrite ?E.
  - unfold selection_consistent. cbn. destruct (videoFile st); [done|].
    by destruct Hst.
Qed.

(** X13. The frame number sent to the encode worker has no effect on the
    frame data: the worker only sends it back with its answer. *)
Theorem frame_number_ignored P (imageData : Image P) settings n m :
  processFrameInWorker P imageData settings n
  = processFrameInWorker P imageData settings m /\
  forall k data,
    frame_worker_onmessage P imageData (format settings) (quality settings) n
    = WorkerSuccess k data ->
    k = n.
Proof.
  unfold processFrameInWorker, frame_worker_onmessage.
  destruct (offscreen_context P imageData); [|done].
  destruct (frame_worker_blob P imageData (format settings)
              (quality settings)); [|done].
  split; [done|]. by intros k data [= <- _].
Qed.

(** X14. A drop that carries no file raises the invalid-file alert, ends
    the dragging state and keeps the selection; a change of the file
    input that carries no file does nothing, and of several files chosen
    only the first is looked at. *)
Theorem selection_without_file createObjectURL (st : AppState) :
  handleFileInput createObjectURL None st = st /\
  handleFileInput createObjectURL (Some []) st = st /\
  (forall file files,
     handleFileInput createObjectURL (Some (file :: files)) st
     = handleFileInput createObjectURL (Some [file]) st /\
     handleDrop createObjectURL (file :: files) st
     = handleDrop createObjectURL [file] st) /\
  alerts (handleDrop createObjectURL [] st)
  = (alerts st ++ ["Please select a valid video file"])%list /\
  isDragging (handleDrop createObjectURL [] st) = false /\
  videoFile (handleDrop createObjectURL [] st) = videoFile st /\
  videoUrl (handleDrop createObjectURL [] st) = videoUrl st /\
  isPlaying (handleDrop createObjectURL [] st) = isPlaying st.
Proof. done. Qed.

(** X15. When an extraction whose pattern holds [%i] has come to its end
    (every loop returned), the frames record holds one file for every
    queued time, under the names of the indices 0, 1, ..., and the
    outcome is the download of its archive, or the failure of the
    archiver. *)
Theorem archive_has_every_frame P (video : Video P) settings totalFrames
    frameInterval originalFilename hardwareConcurrency (s : State P) :
  reachable P video settings totalFrames frameInterval originalFilename
    (worker_count hardwareConcurrency) s ->
  has_pct_i (filename_pattern settings (src video)) ->
  all_returned P (loops s) = true ->
  dom (frames s)
  = list_to_set
      ((fun k => generateFilename settings k totalFrames (src video))
         <$> seq 0 (length (build_queue P video totalFrames frameInterval)))
  /\
  size (frames s) = length (build_queue P video totalFrames frameInterval) /\
  outcome s = Some (settled_result P originalFilename (frames s)).
Proof.
  intros Hr Hp Hall.
  assert (0 < worker_count hardwareConcurrency) as Hw
    by (destruct hardwareConcurrency; cbn; lia).
  destruct (reachable_names P video settings totalFrames frameInterval
              originalFilename _ s Hr) as [Hn Hd].
  destruct (reachable_complete P video settings totalFrames frameInterval
              originalFilename _ s Hr Hw Hall) as [_ Hc].
  destruct (reachable_outcome_view P video settings totalFrames frameInterval
              originalFilename _ Hw s Hr) as [_ Hv].
  rewrite <- Hc. split; [by rewrite Hd, Hn|]. split.
  - rewrite <- size_dom, Hd, Hn. by apply names_size.
  - unfold outcome_view in Hv. destruct (outcome s) as [[d|e]|].
    + destruct Hv as [_ Hv]. by rewrite Hv.
    + destruct Hv as [(w & e' & Hl)|[_ Hv]]; [|by rewrite Hv].
      by pose proof (proj1 (all_returned_lookup P (loops s)) Hall w _ Hl).
    + congruence.
Qed.

Lemma archive_has_every_frame_witness :
  reachable sound_platform (sound_video 1) (count_settings 1) 1 (second 1)
    "clip.mp4" (worker_count 1) all_done /\
  has_pct_i (filename_pattern (count_settings 1) (src (sound_video 1))) /\
  all_returned sound_platform (loops all_done) = true /\
  dom (frames all_done)
  = list_to_set
      ((fun k =>
          generateFilename (count_settings 1) k 1 (src (sound_video 1)))
         <$> seq 0 (length (build_queue sound_platform (sound_video 1) 1
                              (second 1))))
  /\
  size (frames all_done)
  = length (build_queue sound_platform (sound_video 1) 1 (second 1)) /\
  outcome all_done
  = Some (settled_result sound_platform "clip.mp4" (frames all_done)).
Proof.
  assert (has_pct_i (filename_pattern (count_settings 1)
                       (src (sound_video 1)))) as H
    by (exists "frame_", ""; reflexivity).
  split; [exact all_done_reachable|]. split; [exact H|].
  split; [reflexivity|].
  apply (archive_has_every_frame sound_platform (sound_video 1)
           (count_settings 1) 1 (second 1) "clip.mp4" 1 all_done
           all_done_reachable H).
  reflexivity.
Defined.



(** X17. Whatever is changed in the settings panel, and whatever is typed
    as the number of frames (nothing, 0, a negative number), the setting
    [totalFrames] is at least 1; the handler sets no upper limit. So in
    the mode 'count' the frame queue is empty only if 0 is not before the
    duration of the video. *)
Theorem total_frames_at_least_one (changes : list SettingsChange) :
  let settings :=
    foldl (fun s change => setSettings change s) default_settings changes in
  (1 <= totalFrames settings)%Z /\
  (forall n, (1 <= n)%Z ->
     totalFrames (setSettings (SetTotalFrames (Some n)) settings) = n) /\
  forall P (video : Video P),
    extractionMode settings = count ->
    (build_queue P video (extraction_plan P settings (duration video)).1
       (extraction_plan P settings (duration video)).2 = []
     <-> t_lt P (t_zero P) (duration video) = false).
Proof.
  intros settings.
  assert (1 <= totalFrames settings)%Z as H.
  { unfold settings.
    assert (1 <= totalFrames default_settings)%Z as H0 by (cbn; lia).
    revert H0. generalize default_settings.
    induction changes as [|c cs IH]; intros s Hs; [done|].
    cbn [foldl]. apply IH.
    destruct c; cbn [setSettings totalFrames]; try done.
    unfold typed_total. lia. }
  split; [exact H|]. split.
  - intros n Hn. cbn. unfold typed_total.
    destruct (Z.eqb_spec n 0); lia.
  - intros P video Hm. unfold extraction_plan. rewrite Hm. cbn [fst snd].
    rewrite build_queue_empty. split; [intros [?|?]; [lia|done]|by right].
Qed.
